(** * imSim: sky-catalog interface and ESO sky model

    A shallow embedding of [src/imsim/skycat.py] (class
    [SkyCatalogInterface]) and of [src/python/desc/imsim/skyModel.py]
    (class [ESOSkyModel]).

    Numbers.  Python floats are read as real numbers ([R]): rounding,
    overflow and NaN are outside the model.  The one place where the code
    itself tests for an infinite value ([np.isinf(magnorm)]) is modelled by
    a separate type [magnorm_t] that adds the two infinities to [R].
    Python ints are [Z]; sequence indices are [Z] because Python accepts
    negative ones.

    Effects.  Exceptions are an error monad ([result]); the images that
    [ESOSkyModel.addNoiseAndBackground] copies and mutates live in an
    explicit store addressed by location. *)

From Stdlib Require Import Reals Lra Lia ZArith List String Bool Sorted.
Import ListNotations.

Local Open Scope string_scope.
Local Open Scope Z_scope.

(** ** Exceptions *)

Inductive exn : Type :=
| IndexError
| AssertionError
| RuntimeError (msg : string)
| NameError (name : string)
| AttributeError (name : string)
| TypeError.

Inductive result (A : Type) : Type :=
| Ok (a : A)
| Raise (e : exn).
Arguments Ok {A} a.
Arguments Raise {A} e.

Definition bind {A B : Type} (m : result A) (k : A -> result B) : result B :=
  match m with
  | Ok a => k a
  | Raise e => Raise e
  end.

Notation "x <- m ;; k" := (bind m (fun x => k))
  (at level 61, m at next level, right associativity).
Notation "' pat <- m ;; k" := (bind m (fun x => match x with pat => k end))
  (at level 61, pat pattern, m at next level, right associativity).

(** [assert cond] *)
Definition py_assert (cond : bool) : result unit :=
  if cond then Ok tt else Raise AssertionError.

(** ** Python sequence indexing

    [l[i]] on a list: [0 <= i < len(l)] counts from the front,
    [-len(l) <= i < 0] counts from the back, anything else raises
    [IndexError]. *)

Definition len {A : Type} (l : list A) : Z := Z.of_nat (List.length l).

Definition getitem {A : Type} (l : list A) (i : Z) : result A :=
  let j := if i <? 0 then i + len l else i in
  if (j <? 0) || (len l <=? j) then Raise IndexError
  else match nth_error l (Z.to_nat j) with
       | Some a => Ok a
       | None => Raise IndexError
       end.

(** Comparisons of Python floats, as booleans on [R]. *)
Definition Rgeb (x y : R) : bool := if Rge_dec x y then true else false.
Definition Rgtb (x y : R) : bool := if Rgt_dec x y then true else false.

(** ** The catalog: [desc.skycatalogs] objects as the interface uses them *)

(** A [magnorm]: a real or one of the infinities [np.isinf] detects. *)
Inductive magnorm_t : Type :=
| Finite (m : R)
| Infinite (positive : bool).

Definition isinf (m : magnorm_t) : bool :=
  match m with
  | Finite _ => false
  | Infinite _ => true
  end.

(** [magnorm >= bound] *)
Definition magnorm_ge (m : magnorm_t) (bound : R) : bool :=
  match m with
  | Finite r => Rgeb r bound
  | Infinite positive => positive
  end.

(** A component name, or Python's [None]. *)
Definition component_t : Type := option string.

Record BaseObject : Type := mkBaseObject {
  object_type : string;
  subcomponents : list string;
  ra : R;
  dec : R;
  get_native_attribute : string -> R;
  (** [get_sed(component=...)] returns [(wl, flambda, magnorm)]. *)
  get_sed : component_t -> list R * list R * magnorm_t
}.

Record SkyCatalogInterface : Type := mkSkyCatalogInterface {
  objects : list BaseObject;
  _index : list (Z * component_t);
  flip_g2 : bool
}.

(** [_index_subcomponents]: one entry per sub-component of each object, in
    catalog order; an object without sub-components gets the single entry
    [(i, None)]. *)
Fixpoint index_from (i : Z) (objs : list BaseObject) : list (Z * component_t) :=
  match objs with
  | [] => []
  | obj :: rest =>
      let subs := match subcomponents obj with
                  | [] => [None]
                  | cs => map Some cs
                  end in
      map (fun component => (i, component)) subs ++ index_from (i + 1) rest
  end.

Definition _index_subcomponents (objs : list BaseObject) : list (Z * component_t) :=
  index_from 0 objs.

(** [__init__], after the catalog query has produced [objs]. *)
Definition SkyCatalogInterface_init (objs : list BaseObject) (flip : bool)
  : SkyCatalogInterface :=
  mkSkyCatalogInterface objs (_index_subcomponents objs) flip.

Definition get_skycat_obj (self : SkyCatalogInterface) (index : Z)
  : result BaseObject :=
  '(obj_index, _) <- getitem (_index self) index ;;
  getitem (objects self) obj_index.

Definition getNObjects (self : SkyCatalogInterface) : Z := len (_index self).

(** ** galsim values *)

(** [galsim.SED(galsim.LookupTable(wl, flambda), 'nm', 'flambda')]
    renormalised with [withMagnitude(0, _bp500)]: the table is all the
    interface contributes, the normalisation anchor [_bp500] is one class
    attribute. *)
Record SED : Type := mkSED {
  sed_wl : list R;
  sed_flambda : list R
}.

(** What [getSED_info] can return: [(None, magnorm)] on an infinite
    [magnorm], otherwise [(sed, magnorm)] with that finite [magnorm]. *)
Inductive sed_info : Type :=
| NoSED (magnorm : magnorm_t)
| WithSED (sed : SED) (magnorm : R).

Definition info_sed (i : sed_info) : option SED :=
  match i with
  | NoSED _ => None
  | WithSED sed _ => Some sed
  end.

Definition info_magnorm (i : sed_info) : magnorm_t :=
  match i with
  | NoSED m => m
  | WithSED _ m => Finite m
  end.

(** A [gsparams] keyword dictionary, and a random deviate named by its seed. *)
Definition GSParams : Type := list (string * R).
Definition BaseDeviate : Type := Z.

(** The profiles and the wrappers [getObj] builds; angles are in degrees. *)
Inductive GSObject : Type :=
| DeltaFunction (gsparams : option GSParams)
| Sersic (n half_light_radius : R) (gsparams : option GSParams)
| RandomKnots (npoints half_light_radius : R) (rng : option BaseDeviate)
    (gsparams : option GSParams)
| Sheared (obj : GSObject) (q beta : R)
| Lensed (obj : GSObject) (g1 g2 mu : R)
| WithFlux (obj : GSObject) (flux : R)
| TimesSED (obj : GSObject) (sed : SED).

(** ** Numeric helpers of [getObj] *)

Local Open Scope R_scope.

(** Python 3 [round(x)] on a float: the nearest integer, a tie going to the
    even neighbour. *)
Definition py_round (x : R) : Z :=
  let f := Int_part x in
  let d := frac_part x in
  if Rlt_dec d (1 / 2) then f
  else if Rlt_dec (1 / 2) d then (f + 1)%Z
  else if Z.even f then f else (f + 1)%Z.

(** [round(n*20.)/20.] *)
Definition quantize (n : R) : R := IZR (py_round (n * 20)) / 20.

(** [math.exp(-0.9210340371976184 * magnorm)] *)
Definition flux_of_magnorm (magnorm : R) : R :=
  exp (- 0.9210340371976184 * magnorm).

(** [_rubin_area = 0.25 * np.pi * 649**2] *)
Definition _rubin_area : R := 0.25 * PI * 649 ^ 2.

(** [x in (...)] for a component that may be [None]. *)
Definition component_in (component : component_t) (names : list string) : bool :=
  match component with
  | Some c => existsb (String.eqb c) names
  | None => false
  end.

(** ** [SkyCatalogInterface] queries *)

Definition getSED_info (self : SkyCatalogInterface) (index : Z)
  : result sed_info :=
  '(obj_index, component) <- getitem (_index self) index ;;
  obj <- getitem (objects self) obj_index ;;
  let '(wl, flambda, magnorm) := get_sed obj component in
  match magnorm with
  | Infinite _ => Ok (NoSED magnorm)
  | Finite m => Ok (WithSED (mkSED wl flambda) m)
  end.

Definition getWorldPos (self : SkyCatalogInterface) (index : Z)
  : result (R * R) :=
  skycat_obj <- get_skycat_obj self index ;;
  Ok (ra skycat_obj, dec skycat_obj).

(** The arithmetic of [getLens], from raw shear and convergence.  The
    divisions are those of the real numbers: at [kappa = 1] or a zero
    denominator of [mu] the source raises [ZeroDivisionError] or yields
    infinities, by the number type of the catalog, so statements that
    promise a result keep away from both. *)
Definition reduced_shear_and_magnification (gamma1 gamma2 kappa : R)
  : R * R * R :=
  let g1 := gamma1 / (1 - kappa) in
  let g2 := gamma2 / (1 - kappa) in
  let mu := 1 / ((1 - kappa) ^ 2 - (gamma1 ^ 2 + gamma2 ^ 2)) in
  (g1, g2, mu).

Definition getLens (self : SkyCatalogInterface) (index : Z)
  : result (R * R * R) :=
  skycat_obj <- get_skycat_obj self index ;;
  let gamma1 := get_native_attribute skycat_obj "shear_1" in
  let gamma2 := get_native_attribute skycat_obj "shear_2" in
  let kappa := get_native_attribute skycat_obj "convergence" in
  Ok (reduced_shear_and_magnification gamma1 gamma2 kappa).

Definition getDust (self : SkyCatalogInterface) (index : Z) (band : string)
  : result (R * R * R * R) :=
  skycat_obj <- get_skycat_obj self index ;;
  let internal_av := 0 in
  let internal_rv := 1 in
  let MW_av_colname := ("MW_av_lsst_" ++ band)%string in
  let galactic_av := get_native_attribute skycat_obj MW_av_colname in
  let galactic_rv := get_native_attribute skycat_obj "MW_rv" in
  Ok (internal_av, internal_rv, galactic_av, galactic_rv).

Section GetObj.

(** A galsim bandpass and [sed.calculateFlux(bandpass)] are galsim's. *)
Variable Bandpass : Type.
Variable calculateFlux : SED -> Bandpass -> R.

(** The galaxy branch of [getObj]: the sheared profile of a
    bulge, disk or knots component.  [(a*b)**0.5] and [b/a] are read over
    the reals, which is what the source computes for [0 < b <= a]; the
    ranges galsim accepts (Sersic index, axis ratio) are not checked
    here, so statements that promise a profile assume them. *)
Definition galaxy_profile (flip : bool) (skycat_obj : BaseObject)
    (component : string) (gsparams : option GSParams)
    (rng : option BaseDeviate) : result GSObject :=
  let my_component :=
    if String.eqb component "knots" then "disk"%string else component in
  let a := get_native_attribute skycat_obj
             ("size_" ++ my_component ++ "_true")%string in
  let b := get_native_attribute skycat_obj
             ("size_minor_" ++ my_component ++ "_true")%string in
  _ <- py_assert (Rgeb a b) ;;
  let pa := get_native_attribute skycat_obj "position_angle_unlensed" in
  let beta := if flip then 90 - pa else 90 + pa in
  let hlr := sqrt (a * b) in
  obj <- (if String.eqb component "knots" then
            let npoints := get_native_attribute skycat_obj "n_knots" in
            _ <- py_assert (Rgtb npoints 0) ;;
            Ok (RandomKnots npoints hlr rng gsparams)
          else
            let n := get_native_attribute skycat_obj
                       ("sersic_" ++ component)%string in
            let n := quantize n in
            Ok (Sersic n hlr gsparams)) ;;
  Ok (Sheared obj (b / a) beta).

(** Lines 183-220 of [getObj]: the profile by object type and component,
    lensed when it is a galaxy component. *)
Definition build_profile (self : SkyCatalogInterface) (index : Z)
    (skycat_obj : BaseObject) (component : component_t)
    (gsparams : option GSParams) (rng : option BaseDeviate)
  : result GSObject :=
  if String.eqb (object_type skycat_obj) "star" then
    Ok (DeltaFunction gsparams)
  else if String.eqb (object_type skycat_obj) "galaxy"
          && component_in component ["bulge"; "disk"; "knots"]%string
  then
    match component with
    | Some c =>
        obj <- galaxy_profile (flip_g2 self) skycat_obj c gsparams rng ;;
        '(g1, g2, mu) <- getLens self index ;;
        Ok (Lensed obj g1 g2 mu)
    | None =>
        Raise (RuntimeError "Do not know how to handle object type: None")
    end
  else
    Raise (RuntimeError
             ("Do not know how to handle object type: " ++
              match component with
              | Some c => c
              | None => "None"
              end)).

(** Lines 222-234 of [getObj]: the flux for [magnorm], as photons, for an
    exposure time that is a number (a caller that passes [None] gets a
    [TypeError] at line 229, which is outside this model). *)
Definition scale_flux (obj : GSObject) (sed : SED) (magnorm : R)
    (bandpass : Bandpass) (chromatic : bool) (exp_time : R) : GSObject :=
  let flux := flux_of_magnorm magnorm in
  let fAt := flux * _rubin_area * exp_time in
  if chromatic then TimesSED (WithFlux obj fAt) sed
  else
    let flux := calculateFlux sed bandpass * fAt in
    WithFlux obj flux.

Definition getObj (self : SkyCatalogInterface) (index : Z)
    (gsparams : option GSParams) (rng : option BaseDeviate)
    (bandpass : Bandpass) (chromatic : bool) (exp_time : R)
  : result (option GSObject) :=
  '(obj_index, component) <- getitem (_index self) index ;;
  skycat_obj <- getitem (objects self) obj_index ;;
  info <- getSED_info self index ;;
  match info with
  | NoSED _ => Ok None
  | WithSED sed magnorm =>
      if Rgeb magnorm 50 then Ok None
      else
        obj <- build_profile self index skycat_obj component gsparams rng ;;
        Ok (Some (scale_flux obj sed magnorm bandpass chromatic exp_time))
  end.

End GetObj.

(** ** [skyModel.py]: images, photon arrays and the store *)

Record Image : Type := mkImage {
  xmin : Z;
  xmax : Z;
  ymin : Z;
  ymax : Z;
  array : list (list R)
}.

(** [image.array.shape] and [np.prod] of it. *)
Definition shape (image : Image) : Z * Z :=
  (len (array image), len (hd [] (array image))).

Definition np_prod (s : Z * Z) : Z := (fst s * snd s)%Z.

(** [int(x)] on a float: truncation towards zero. *)
Definition py_int (x : R) : Z :=
  if Rle_dec 0 x then Int_part x else (- Int_part (- x))%Z.

Record PhotonArray : Type := mkPhotonArray {
  pa_x : list R;
  pa_y : list R;
  pa_flux : list R;
  pa_wavelength : list R;
  pa_dxdz : list R;
  pa_dydz : list R
}.

(** [galsim.PhotonArray(N)]: [N] photons, every field zero.  The count of
    line 122 is a float; it is read as [int(N)], as the numpy of the
    source's time did (later releases refuse a float count). *)
Definition PhotonArray_new (N : R) : PhotonArray :=
  let z := repeat 0 (Z.to_nat (py_int N)) in
  mkPhotonArray z z z z z z.

Definition set_x (p : PhotonArray) (v : list R) : PhotonArray :=
  mkPhotonArray v (pa_y p) (pa_flux p) (pa_wavelength p) (pa_dxdz p) (pa_dydz p).
Definition set_y (p : PhotonArray) (v : list R) : PhotonArray :=
  mkPhotonArray (pa_x p) v (pa_flux p) (pa_wavelength p) (pa_dxdz p) (pa_dydz p).
(** [photon_array.flux = value] broadcasts a scalar over the array. *)
Definition set_flux (p : PhotonArray) (value : R) : PhotonArray :=
  mkPhotonArray (pa_x p) (pa_y p) (map (fun _ => value) (pa_flux p))
    (pa_wavelength p) (pa_dxdz p) (pa_dydz p).

(** Name resolution inside [addNoiseAndBackground].  The names of the
    frame that hold a photon array are kept by name.  The module binds
    [np], [u], [skybrightness], [galsim], [NoiseAndBackgroundBase],
    [get_config], [skyCountsPerSec], [ESOSkyModel], [get_skyModel_params]
    and [__all__] only, so a name missing from the frame is bound nowhere
    and reading it raises [NameError]. *)
Definition frame : Type := list (string * PhotonArray).

Fixpoint load_name (fr : frame) (name : string) : result PhotonArray :=
  match fr with
  | [] => Raise (NameError name)
  | (n, v) :: rest => if String.eqb n name then Ok v else load_name rest name
  end.

Fixpoint store_name (fr : frame) (name : string) (v : PhotonArray) : frame :=
  match fr with
  | [] => [(name, v)]
  | (n, w) :: rest =>
      if String.eqb n name then (n, v) :: rest
      else (n, w) :: store_name rest name v
  end.

Record ObservationMetaData : Type := mkObservationMetaData {
  pointingRA : R;
  pointingDec : R;
  mjd_TAI : R;
  bandpass : string
}.

Record PhotometricParameters : Type := mkPhotometricParameters {
  nexp : Z;
  exptime : R;
  gain : R;
  readnoise : R
}.

(** [galsim.CCDNoise(rng, sky_level, gain, read_noise)]; the deviate is the
    shared [self.randomNumbers]. *)
Record CCDNoise : Type := mkCCDNoise {
  sky_level : R;
  noise_gain : R;
  read_noise : R
}.

(** A sky level as [getNoiseModel] is handed it: a plain float (the
    default [0.0], and line 167), or the astropy Quantity of line 170.
    [skyCountsPerSec] multiplies a zero point in electron/s/m^2 by
    arcsec^-2, arcsec^2 and m^2, and line 107 multiplies by seconds, so the
    Quantity [skyCounts*photParams.gain] is a number of electrons. *)
Inductive sky_level_t : Type :=
| PlainLevel (value : R)
| ElectronLevel (value : R).

(** The constructor [galsim.CCDNoise] stores [float(sky_level)]; a Quantity
    that carries a unit does not convert to a float and the constructor
    raises [TypeError]. *)
Definition CCDNoise_new (level : sky_level_t) (gain read_noise : R)
  : result CCDNoise :=
  match level with
  | PlainLevel value => Ok (mkCCDNoise value gain read_noise)
  | ElectronLevel _ => Raise TypeError
  end.

Record ESOSkyModel : Type := mkESOSkyModel {
  obs_metadata : ObservationMetaData;
  addNoise : bool;
  addBackground : bool
}.

Section SkyModel.

(** External collaborators: the configured zero points
    ([get_skyModel_params]), the sky-brightness model
    ([SkyModel.returnMags] after [setRaDecMjd]), the uniform deviate, the
    wavelength/angle samplers with the silicon sensor, and the noise
    model's action on an image. *)
Variable pars : string -> R.
Variable returnMags : R -> R -> R -> string -> R.
Variable UniformDeviate : Type.
Variable generate : UniformDeviate -> nat -> list R * UniformDeviate.
Variable sample_and_accumulate :
  PhotonArray -> R -> UniformDeviate -> Image -> Image * UniformDeviate.
Variable applyNoise : CCDNoise -> UniformDeviate -> Image -> Image * UniformDeviate.

(** The mutable objects a call can reach: images by location, and the
    deviate [self.randomNumbers]. *)
Record World : Type := mkWorld {
  images : nat -> Image;
  next_loc : nat;
  randomNumbers : UniformDeviate
}.

Definition set_image (w : World) (l : nat) (v : Image) : World :=
  mkWorld (fun l' => if Nat.eqb l' l then v else images w l')
    (next_loc w) (randomNumbers w).

Definition set_rng (w : World) (r : UniformDeviate) : World :=
  mkWorld (images w) (next_loc w) r.

(** [image.copy()]: a new image object with the same contents. *)
Definition image_copy (w : World) (l : nat) : nat * World :=
  (next_loc w,
   mkWorld (fun l' => if Nat.eqb l' (next_loc w) then images w l else images w l')
     (S (next_loc w)) (randomNumbers w)).

(** [skyCountsPerSec] with its default effective area (32.4 m^2) and pixel
    size (0.2 arcsec); a magnitude [dB] converts to the linear factor
    [10^(-0.4 dB)].  This is the value of the returned Quantity, whose unit
    is electron/s. *)
Definition skyCountsPerSec (surface_brightness : R) (filter_band : string) : R :=
  let s0 := pars filter_band in
  let dB := surface_brightness - pars "B0" in
  s0 * Rpower 10 (- 0.4 * dB) * 0.2 ^ 2 * 32.4.

Definition getNoiseModel (skyLevel : sky_level_t)
    (photParams : PhotometricParameters) : result CCDNoise :=
  CCDNoise_new skyLevel (gain photParams) (readnoise photParams).

(** Lines 118-122: the photon batch for the sky of one image. *)
Definition photons_per_pixel : R := 100.

Definition allocate_sky_photons (image : Image) (skyCounts : R)
  : R * PhotonArray :=
  let npix := np_prod (shape image) in
  let flux_per_photon := skyCounts / photons_per_pixel in
  let nphotons := photons_per_pixel * IZR npix in
  (flux_per_photon, PhotonArray_new nphotons).

(** Lines 125-134: positions and flux of the photons.  The frame binds
    [photon_array] only. *)
Definition set_positions_and_flux (image : Image) (flux_per_photon : R)
    (rng : UniformDeviate) (fr : frame) : result (frame * UniformDeviate) :=
  p <- load_name fr "photon_array" ;;
  let '(u, rng) := generate rng (List.length (pa_x p)) in
  let fr := store_name fr "photon_array" (set_x p u) in
  p <- load_name fr "photon_arra" ;;
  let fr := store_name fr "photon_arra"
    (set_x p (map (fun v => v * IZR (xmax image - xmin image + 1)) (pa_x p))) in
  p <- load_name fr "photon_arra" ;;
  let fr := store_name fr "photon_arra"
    (set_x p (map (fun v => v + (IZR (xmin image) - 0.5)) (pa_x p))) in
  p <- load_name fr "photon_array" ;;
  let '(u, rng) := generate rng (List.length (pa_y p)) in
  let fr := store_name fr "photon_array" (set_y p u) in
  p <- load_name fr "photon_arra" ;;
  let fr := store_name fr "photon_arra"
    (set_y p (map (fun v => v * IZR (ymax image - ymin image + 1)) (pa_y p))) in
  p <- load_name fr "photon_arra" ;;
  let fr := store_name fr "photon_arra"
    (set_y p (map (fun v => v + (IZR (ymin image) - 0.5)) (pa_y p))) in
  p <- load_name fr "photon_array" ;;
  let fr := store_name fr "photon_array" (set_flux p flux_per_photon) in
  Ok (fr, rng).

(** Lines 172-176: the noise step, on the image at location [image]. *)
Definition noise_step (self : ESOSkyModel) (skyLevel : sky_level_t)
    (photParams : PhotometricParameters) (image : nat) (w : World)
  : result (nat * World) :=
  if addNoise self then
    noiseModel <- getNoiseModel skyLevel photParams ;;
    let '(img, rng) := applyNoise noiseModel (randomNumbers w) (images w image) in
    Ok (image, set_rng (set_image w image img) rng)
  else
    Ok (image, w).

(** [addNoiseAndBackground].  [image] is the location of the caller's
    image; the result is the location of the returned one.  Lines 137-160
    (wavelength and angle sampling, the silicon sensor and its
    [accumulate]) are galsim's and form the single step
    [sample_and_accumulate], which takes the recompute threshold of
    line 154. *)
Definition addNoiseAndBackground (self : ESOSkyModel) (image : nat)
    (photParams : PhotometricParameters) (w : World) : result (nat * World) :=
  let md := obs_metadata self in
  let bandPassName := bandpass md in
  let skyMagnitude :=
    returnMags (pointingRA md) (pointingDec md) (mjd_TAI md) bandPassName in
  let exposureTime := IZR (nexp photParams) * exptime photParams in
  let skyCounts := skyCountsPerSec skyMagnitude bandPassName * exposureTime in
  let '(image, w) := image_copy w image in
  '(skyLevel, w) <-
    (if addBackground self then
       let '(flux_per_photon, photon_array) :=
         allocate_sky_photons (images w image) skyCounts in
       let npix := np_prod (shape (images w image)) in
       '(fr, rng) <- set_positions_and_flux (images w image) flux_per_photon
                       (randomNumbers w) [("photon_array"%string, photon_array)] ;;
       photon_array <- load_name fr "photon_array" ;;
       let nrecalc := Rmax 10000 (flux_per_photon * IZR npix) in
       let '(img, rng) :=
         sample_and_accumulate photon_array nrecalc rng (images w image) in
       Ok (PlainLevel 0, set_rng (set_image w image img) rng)
     else
       Ok (ElectronLevel (skyCounts * gain photParams), w)) ;;
  noise_step self skyLevel photParams image w.

End SkyModel.

(** ** Observers and the inverse lensing map used in the statements *)

(** The half-light radius of the profile at the core of a built object. *)
Fixpoint profile_half_light_radius (o : GSObject) : option R :=
  match o with
  | DeltaFunction _ => None
  | Sersic _ hlr _ => Some hlr
  | RandomKnots _ hlr _ _ => Some hlr
  | Sheared o _ _ | Lensed o _ _ _ | WithFlux o _ | TimesSED o _ =>
      profile_half_light_radius o
  end.

(** The intrinsic shear [(q, beta)] applied to the profile. *)
Fixpoint applied_shear (o : GSObject) : option (R * R) :=
  match o with
  | DeltaFunction _ | Sersic _ _ _ | RandomKnots _ _ _ _ => None
  | Sheared _ q beta => Some (q, beta)
  | Lensed o _ _ _ | WithFlux o _ | TimesSED o _ => applied_shear o
  end.

(** The source has no inverse of [getLens].  This is the usual one, on the
    branch [1 - kappa > 0]: since [mu * (1 - g1^2 - g2^2) = 1 / (1 - kappa)^2],
    [1 - kappa = 1 / sqrt (mu * (1 - g1^2 - g2^2))] and
    [gamma_i = g_i * (1 - kappa)]. *)
Definition lens_inverse (g : R * R * R) : R * R * R :=
  let '(g1, g2, mu) := g in
  let one_minus_kappa := 1 / sqrt (mu * (1 - (g1 ^ 2 + g2 ^ 2))) in
  (g1 * one_minus_kappa, g2 * one_minus_kappa, 1 - one_minus_kappa).

(** Inputs of [getLens] away from its two singularities. *)
Definition regular (gamma1 gamma2 kappa : R) : Prop :=
  kappa <> 1 /\ (1 - kappa) ^ 2 <> gamma1 ^ 2 + gamma2 ^ 2.

(** ** Sample catalogs and images *)

Definition sample_attributes (n_knots : R) (name : string) : R :=
  if String.eqb name "size_bulge_true" then 2
  else if String.eqb name "size_minor_bulge_true" then 1
  else if String.eqb name "size_disk_true" then 2
  else if String.eqb name "size_minor_disk_true" then 1
  else if String.eqb name "position_angle_unlensed" then 30
  else if String.eqb name "sersic_bulge" then 4
  else if String.eqb name "n_knots" then n_knots
  else if String.eqb name "shear_1" then 0.03
  else if String.eqb name "shear_2" then - 0.04
  else if String.eqb name "convergence" then 0.1
  else 0.

(** A galaxy with bulge and knots whose every component has [magnorm]. *)
Definition sample_galaxy (n_knots : R) (magnorm : magnorm_t) : BaseObject :=
  mkBaseObject "galaxy" ["bulge"; "knots"]%string 10 (-30)
    (sample_attributes n_knots)
    (fun _ => ([400; 500; 600], [1; 1; 1], magnorm)).

Definition sample_catalog (n_knots : R) (magnorm : magnorm_t)
  : SkyCatalogInterface :=
  SkyCatalogInterface_init [sample_galaxy n_knots magnorm] true.

(** A one-pixel image, a world holding it at location 0 with a trivial
    deviate, and a noise model that adds one count to every pixel. *)
Definition sample_image : Image := mkImage 1 1 1 1 [[0]].

Definition sample_world : World unit := mkWorld unit (fun _ => sample_image) 1%nat tt.

Definition sample_noise (_ : CCDNoise) (rng : unit) (image : Image)
  : Image * unit :=
  (mkImage (xmin image) (xmax image) (ymin image) (ymax image)
     (map (map (fun v => v + 1)) (array image)), rng).

Definition sample_photParams : PhotometricParameters :=
  mkPhotometricParameters 2 15 1 0.

Definition sample_metadata : ObservationMetaData :=
  mkObservationMetaData 0 0 60000 "r".

(** ** Observers of the index and of the built objects *)

(** The components one catalog object contributes to the index. *)
Definition entries (obj : BaseObject) : list component_t :=
  match subcomponents obj with
  | [] => [None]
  | cs => map Some cs
  end.

(** The index entries that point at object [i], in index order. *)
Definition entries_at (i : Z) (index : list (Z * component_t))
  : list component_t :=
  map snd (filter (fun e => Z.eqb (fst e) i) index).

(** The flux a built object was given by [withFlux]. *)
Fixpoint total_flux (o : GSObject) : option R :=
  match o with
  | WithFlux _ flux => Some flux
  | TimesSED o _ => total_flux o
  | _ => None
  end.

(** The object below the flux scaling. *)
Definition unscaled (o : GSObject) : GSObject :=
  match o with
  | WithFlux o _ => o
  | TimesSED (WithFlux o _) _ => o
  | _ => o
  end.

(** A star, a galaxy without sub-components, and a catalog of the sample
    galaxy followed by these two, built without [flip_g2]. *)
Definition sample_star : BaseObject :=
  mkBaseObject "star" [] 11 (-31) (sample_attributes 0)
    (fun _ => ([400; 500; 600], [2; 2; 2], Finite 18)).

Definition sample_bare_galaxy : BaseObject :=
  mkBaseObject "galaxy" [] 12 (-32) (sample_attributes 0)
    (fun _ => ([400; 500; 600], [3; 3; 3], Finite 22)).

Definition sample_mixed_catalog : SkyCatalogInterface :=
  SkyCatalogInterface_init
    [sample_galaxy 5 (Finite 20); sample_star; sample_bare_galaxy] false.

(** * Properties *)

(** ** Sequence indexing *)

Lemma len_nonneg {A : Type} (l : list A) : (0 <= len l)%Z.
Proof. unfold len. lia. Qed.

Lemma getitem_out_of_range {A : Type} (l : list A) (i : Z) :
  (i < - len l \/ len l <= i)%Z -> getitem l i = Raise IndexError.
Proof.
  intros H. unfold getitem. pose proof (len_nonneg l) as Hl.
  destruct (i <? 0)%Z eqn:Hneg; cbv zeta.
  - apply Z.ltb_lt in Hneg.
    assert (Hj : (i + len l <? 0)%Z = true) by (apply Z.ltb_lt; lia).
    now rewrite Hj.
  - apply Z.ltb_ge in Hneg.
    assert (Hj : (len l <=? i)%Z = true) by (apply Z.leb_le; lia).
    rewrite Hj. now rewrite orb_true_r.
Qed.

Lemma getitem_from_end {A : Type} (l : list A) (i : Z) :
  (- len l <= i < 0)%Z -> getitem l i = getitem l (i + len l).
Proof.
  intros H. unfold getitem.
  assert (Hneg : (i <? 0)%Z = true) by (apply Z.ltb_lt; lia).
  assert (Hpos : (i + len l <? 0)%Z = false) by (apply Z.ltb_ge; lia).
  rewrite Hneg, Hpos. cbv zeta. now rewrite Hpos.
Qed.

Lemma getitem_in_range {A : Type} (l : list A) (i : Z) :
  (0 <= i < len l)%Z -> exists a, getitem l i = Ok a.
Proof.
  intros H. unfold getitem.
  assert (Hneg : (i <? 0)%Z = false) by (apply Z.ltb_ge; lia).
  assert (Hhi : (len l <=? i)%Z = false) by (apply Z.leb_gt; lia).
  rewrite Hneg. cbv zeta. rewrite Hneg, Hhi. cbn [orb].
  destruct (nth_error l (Z.to_nat i)) as [a|] eqn:Hn.
  - now exists a.
  - apply nth_error_None in Hn. unfold len in H. lia.
Qed.

Lemma index_lookup_fails (self : SkyCatalogInterface) (index : Z) :
  (index < - getNObjects self \/ getNObjects self <= index)%Z ->
  getitem (_index self) index = Raise IndexError.
Proof. apply getitem_out_of_range. Qed.

(** ** Resolving an index (C5) *)

(** C5, as stated, fails: on a catalog of two entries the index [-1] lies
    outside [[0, count())] and still resolves, to the last entry, in
    [get_skycat_obj], [getSED_info] and [getWorldPos]. *)
Lemma negative_index_resolves :
  let self := sample_catalog 5 (Finite 20) in
  getNObjects self = 2%Z /\
  ~ (0 <= -1 < getNObjects self)%Z /\
  get_skycat_obj self (-1) = Ok (sample_galaxy 5 (Finite 20)) /\
  getWorldPos self (-1) = Ok (10, -30) /\
  getSED_info self (-1) = Ok (WithSED (mkSED [400; 500; 600] [1; 1; 1]) 20).
Proof.
  cbv zeta. split; [reflexivity|]. split.
  - change (getNObjects (sample_catalog 5 (Finite 20))) with 2%Z. lia.
  - repeat split; reflexivity.
Qed.

(** C5, amended: an index below [-count()] or at least [count()] makes every
    lookup raise [IndexError]; an index in [[-count(), 0)] is Python's
    from-the-end index and resolves exactly as [index + count()] does. *)
Theorem index_out_of_range_raises
    (Bandpass : Type) (calculateFlux : SED -> Bandpass -> R)
    (self : SkyCatalogInterface) (index : Z) :
  ((index < - getNObjects self \/ getNObjects self <= index)%Z ->
     get_skycat_obj self index = Raise IndexError /\
     getSED_info self index = Raise IndexError /\
     getWorldPos self index = Raise IndexError /\
     getLens self index = Raise IndexError /\
     forall gsparams rng bandpass chromatic exp_time,
       getObj Bandpass calculateFlux self index gsparams rng bandpass
         chromatic exp_time = Raise IndexError) /\
  ((- getNObjects self <= index < 0)%Z ->
     get_skycat_obj self index = get_skycat_obj self (index + getNObjects self) /\
     getSED_info self index = getSED_info self (index + getNObjects self)).
Proof.
  split.
  - intros H. apply index_lookup_fails in H.
    unfold getWorldPos, getLens, get_skycat_obj, getSED_info, getObj.
    rewrite H. cbn. repeat split; reflexivity.
  - intros H. unfold get_skycat_obj, getSED_info, getNObjects in *.
    rewrite (getitem_from_end _ _ H). split; reflexivity.
Qed.

Lemma index_out_of_range_raises_witness :
  get_skycat_obj (sample_catalog 5 (Finite 20)) 2 = Raise IndexError /\
  get_skycat_obj (sample_catalog 5 (Finite 20)) (-1) =
    get_skycat_obj (sample_catalog 5 (Finite 20)) 1.
Proof.
  pose proof (index_out_of_range_raises unit (fun _ _ => 0)
                (sample_catalog 5 (Finite 20)) 2) as [Hhi _].
  pose proof (index_out_of_range_raises unit (fun _ _ => 0)
                (sample_catalog 5 (Finite 20)) (-1)) as [_ Hneg].
  split.
  - apply Hhi. right. change (getNObjects (sample_catalog 5 (Finite 20))) with 2%Z. lia.
  - apply Hneg. change (getNObjects (sample_catalog 5 (Finite 20))) with 2%Z. lia.
Defined.

(** ** [getObj] *)

Lemma Rgeb_true (x y : R) : x >= y -> Rgeb x y = true.
Proof. intros H. unfold Rgeb. destruct (Rge_dec x y); [reflexivity | contradiction]. Qed.

Lemma Rgeb_false (x y : R) : x < y -> Rgeb x y = false.
Proof. intros H. unfold Rgeb. destruct (Rge_dec x y); [lra | reflexivity]. Qed.

Lemma Rgtb_false (x y : R) : x <= y -> Rgtb x y = false.
Proof. intros H. unfold Rgtb. destruct (Rgt_dec x y); [lra | reflexivity]. Qed.

Lemma getSED_info_resolved (self : SkyCatalogInterface) (index obj_index : Z)
    (component : component_t) (obj : BaseObject) :
  getitem (_index self) index = Ok (obj_index, component) ->
  getitem (objects self) obj_index = Ok obj ->
  getSED_info self index =
    Ok (match get_sed obj component with
        | (wl, flambda, Finite m) => WithSED (mkSED wl flambda) m
        | (_, _, Infinite p) => NoSED (Infinite p)
        end).
Proof.
  intros Hi Ho. unfold getSED_info. rewrite Hi. cbn. rewrite Ho. cbn.
  destruct (get_sed obj component) as [[wl fl] [m|p]]; reflexivity.
Qed.

Lemma getSED_info_lookups (self : SkyCatalogInterface) (index : Z) (info : sed_info) :
  getSED_info self index = Ok info ->
  exists obj_index component obj,
    getitem (_index self) index = Ok (obj_index, component) /\
    getitem (objects self) obj_index = Ok obj.
Proof.
  unfold getSED_info. intros H.
  destruct (getitem (_index self) index) as [[oi c]|e]; [|discriminate].
  cbn in H. destruct (getitem (objects self) oi) as [obj|e] eqn:Ho; [|discriminate].
  now exists oi, c, obj.
Qed.

Section GetObjFacts.

Variable Bandpass : Type.
Variable calculateFlux : SED -> Bandpass -> R.
Variable self : SkyCatalogInterface.
Variable index : Z.
Variable gsparams : option GSParams.
Variable rng : option BaseDeviate.
Variable bandpass : Bandpass.
Variable chromatic : bool.
Variable exp_time : R.

Local Abbreviation getObj_here :=
  (getObj Bandpass calculateFlux self index gsparams rng bandpass chromatic exp_time).

(** Past the guard, [getObj] is the profile builder followed by the
    flux scaling. *)
Lemma getObj_rendered (obj_index : Z) (component : component_t)
    (obj : BaseObject) (sed : SED) (magnorm : R) :
  getitem (_index self) index = Ok (obj_index, component) ->
  getitem (objects self) obj_index = Ok obj ->
  getSED_info self index = Ok (WithSED sed magnorm) ->
  magnorm < 50 ->
  getObj_here =
    (o <- build_profile self index obj component gsparams rng ;;
     Ok (Some (scale_flux Bandpass calculateFlux o sed magnorm bandpass
                 chromatic exp_time))).
Proof.
  intros Hi Ho Hs Hm. unfold getObj. rewrite Hi. cbn. rewrite Ho. cbn.
  rewrite Hs. cbn. now rewrite (Rgeb_false _ _ Hm).
Qed.

(** C1: when the resolved magnorm is plus infinity, and more generally
    when the resolved spectrum is null or the magnorm is at least 50,
    [getObj] returns [None]; it raises nothing. *)
Theorem getObj_do_not_render (info : sed_info) :
  getSED_info self index = Ok info ->
  info_magnorm info = Infinite true \/
  info_sed info = None \/
  magnorm_ge (info_magnorm info) 50 = true ->
  getObj_here = Ok None.
Proof.
  intros Hs Hcond.
  destruct (getSED_info_lookups _ _ _ Hs) as (oi & c & obj & Hi & Ho).
  unfold getObj. rewrite Hi. cbn. rewrite Ho. cbn. rewrite Hs. cbn.
  destruct info as [m|sed m]; [reflexivity|].
  cbn in Hcond. destruct Hcond as [H|[H|H]]; try discriminate.
  now rewrite H.
Qed.

(** C7, amended: for a galaxy component that gets past the guard (spectrum
    resolved, magnorm below 50), a knots component with [n_knots <= 0],
    and a bulge, disk or knots component whose minor axis exceeds its
    major axis (knots reads the disk's axes), make [getObj] raise
    [AssertionError]; no profile is returned. *)
Theorem getObj_invariant_violation (obj_index : Z) (component : string)
    (obj : BaseObject) (sed : SED) (magnorm : R) :
  getitem (_index self) index = Ok (obj_index, Some component) ->
  getitem (objects self) obj_index = Ok obj ->
  object_type obj = "galaxy"%string ->
  getSED_info self index = Ok (WithSED sed magnorm) ->
  magnorm < 50 ->
  (component = "knots"%string /\
     (get_native_attribute obj "n_knots" <= 0 \/
      get_native_attribute obj "size_minor_disk_true" >
        get_native_attribute obj "size_disk_true")) \/
  (In component ["bulge"; "disk"]%string /\
     get_native_attribute obj ("size_minor_" ++ component ++ "_true")%string >
       get_native_attribute obj ("size_" ++ component ++ "_true")%string) ->
  getObj_here = Raise AssertionError.
Proof.
  intros Hi Ho Hty Hs Hm Hbad.
  rewrite (getObj_rendered _ _ _ _ _ Hi Ho Hs Hm).
  unfold build_profile. rewrite Hty.
  destruct Hbad as [[-> Hk] | [Hin Hab]].
  - cbn. unfold galaxy_profile. cbn.
    destruct (Rge_dec (get_native_attribute obj "size_disk_true")
                      (get_native_attribute obj "size_minor_disk_true")) as [Hge|Hlt].
    + destruct Hk as [Hk|Hk]; [|lra].
      rewrite (Rgeb_true _ _ Hge). cbn. now rewrite (Rgtb_false _ _ Hk).
    + unfold Rgeb. destruct (Rge_dec _ _); [contradiction | reflexivity].
  - assert (Hlt : Rgeb (get_native_attribute obj ("size_" ++ component ++ "_true")%string)
                       (get_native_attribute obj ("size_minor_" ++ component ++ "_true")%string)
                  = false) by (apply Rgeb_false; lra).
    destruct Hin as [<- | [<- | []]]; cbn in *; unfold galaxy_profile; cbn;
      now rewrite Hlt.
Qed.

(** C2: a galaxy bulge with a = 2, b = 1 and position angle [pa] that gets
    past the guard is built with half-light radius sqrt (a b) = sqrt 2 and
    axis ratio b / a = 1/2, at position angle 90 - pa under [flip_g2] and
    90 + pa without it; for pa = 30 under [flip_g2] that is 60 degrees. *)
Theorem getObj_bulge_scenario (obj_index : Z) (obj : BaseObject)
    (sed : SED) (magnorm pa : R) :
  getitem (_index self) index = Ok (obj_index, Some "bulge"%string) ->
  getitem (objects self) obj_index = Ok obj ->
  object_type obj = "galaxy"%string ->
  get_native_attribute obj "size_bulge_true" = 2 ->
  get_native_attribute obj "size_minor_bulge_true" = 1 ->
  get_native_attribute obj "position_angle_unlensed" = pa ->
  getSED_info self index = Ok (WithSED sed magnorm) ->
  magnorm < 50 ->
  exists o : GSObject,
    getObj_here = Ok (Some o) /\
    profile_half_light_radius o = Some (sqrt 2) /\
    applied_shear o = Some (1 / 2, if flip_g2 self then 90 - pa else 90 + pa) /\
    (pa = 30 -> flip_g2 self = true -> applied_shear o = Some (1 / 2, 60)).
Proof.
  intros Hi Ho Hty Ha Hb Hpa Hs Hm.
  rewrite (getObj_rendered _ _ _ _ _ Hi Ho Hs Hm).
  unfold build_profile, getLens, get_skycat_obj. rewrite Hty, Hi. cbn.
  rewrite Ho. cbn. unfold galaxy_profile. cbn. rewrite Ha, Hb, Hpa.
  rewrite Rgeb_true by lra. cbn.
  replace (2 * 1) with 2 by lra.
  eexists. split; [reflexivity|].
  unfold scale_flux.
  destruct chromatic; cbn; (split; [reflexivity|]); (split; [reflexivity|]);
    intros -> ->; do 2 f_equal; lra.
Qed.

End GetObjFacts.

Lemma getObj_do_not_render_witness :
  getSED_info (sample_catalog 5 (Infinite true)) 0 = Ok (NoSED (Infinite true)) /\
  getObj unit (fun _ _ => 1) (sample_catalog 5 (Infinite true)) 0 None None tt
    false 30 = Ok None.
Proof.
  split; [reflexivity|].
  apply (getObj_do_not_render unit (fun _ _ => 1)
           (sample_catalog 5 (Infinite true)) 0 None None tt false 30
           (NoSED (Infinite true))).
  - reflexivity.
  - left. reflexivity.
Defined.

(** C7, as stated, fails: a galaxy knots component with [n_knots = 0] whose
    magnorm is plus infinity is turned away by the guard, so [getObj]
    returns [None] and no assertion is evaluated. *)
Lemma knots_without_points_not_rendered :
  let self := sample_catalog 0 (Infinite true) in
  getitem (_index self) 1 = Ok (0%Z, Some "knots"%string) /\
  object_type (sample_galaxy 0 (Infinite true)) = "galaxy"%string /\
  get_native_attribute (sample_galaxy 0 (Infinite true)) "n_knots" = 0 /\
  getObj unit (fun _ _ => 1) self 1 None None tt false 30 = Ok None /\
  getObj unit (fun _ _ => 1) self 1 None None tt false 30 <> Raise AssertionError.
Proof.
  cbv zeta. repeat split; try reflexivity. discriminate.
Qed.

Lemma getObj_invariant_violation_witness :
  getObj unit (fun _ _ => 1) (sample_catalog 0 (Finite 20)) 1 None None tt
    false 30 = Raise AssertionError.
Proof.
  apply (getObj_invariant_violation unit (fun _ _ => 1)
           (sample_catalog 0 (Finite 20)) 1 None None tt false 30
           0%Z "knots"%string (sample_galaxy 0 (Finite 20))
           (mkSED [400; 500; 600] [1; 1; 1]) 20).
  - reflexivity.
  - reflexivity.
  - reflexivity.
  - reflexivity.
  - lra.
  - left. split; [reflexivity|]. left. cbn. lra.
Defined.

Lemma getObj_bulge_scenario_witness :
  exists o : GSObject,
    getObj unit (fun _ _ => 1) (sample_catalog 5 (Finite 20)) 0 None None tt
      false 30 = Ok (Some o) /\
    profile_half_light_radius o = Some (sqrt 2) /\
    applied_shear o = Some (1 / 2, 60).
Proof.
  destruct (getObj_bulge_scenario unit (fun _ _ => 1)
              (sample_catalog 5 (Finite 20)) 0 None None tt false 30
              0%Z (sample_galaxy 5 (Finite 20))
              (mkSED [400; 500; 600] [1; 1; 1]) 20 30)
    as (o & Hcall & Hhlr & _ & Hbeta); try reflexivity.
  - lra.
  - exists o. repeat split; [exact Hcall | exact Hhlr |].
    apply Hbeta; reflexivity.
Defined.

(** ** Lensing (C3) *)

Lemma lens_inverse_roundtrip (gamma1 gamma2 kappa : R) :
  kappa < 1 ->
  (1 - kappa) ^ 2 <> gamma1 ^ 2 + gamma2 ^ 2 ->
  lens_inverse (reduced_shear_and_magnification gamma1 gamma2 kappa) =
    (gamma1, gamma2, kappa).
Proof.
  intros Hk Hd. unfold reduced_shear_and_magnification, lens_inverse. cbv zeta.
  set (d := 1 - kappa).
  assert (Hdpos : 0 < d) by (unfold d; lra).
  assert (Hden : d ^ 2 - (gamma1 ^ 2 + gamma2 ^ 2) <> 0) by (unfold d; lra).
  assert (Hsq : 1 / (d ^ 2 - (gamma1 ^ 2 + gamma2 ^ 2)) *
                (1 - ((gamma1 / d) ^ 2 + (gamma2 / d) ^ 2)) = (/ d) * (/ d))
    by (field; split; lra).
  rewrite Hsq.
  assert (Hinv : 0 < / d) by now apply Rinv_0_lt_compat.
  rewrite sqrt_square by lra.
  assert (Hone : 1 / / d = d) by (field; lra).
  rewrite Hone. f_equal; [f_equal|]; unfold d; field; lra.
Qed.

(** Reflecting the shear and the convergence through [kappa = 1] leaves
    the reduced shear and the magnification unchanged. *)
Lemma lens_reflection (gamma1 gamma2 kappa : R) :
  kappa <> 1 ->
  reduced_shear_and_magnification (- gamma1) (- gamma2) (2 - kappa) =
    reduced_shear_and_magnification gamma1 gamma2 kappa.
Proof.
  intros Hk. unfold reduced_shear_and_magnification. cbv zeta.
  f_equal; [f_equal|].
  - field; lra.
  - field; lra.
  - f_equal. ring.
Qed.

(** C3, as stated, fails: [(1/10, 0, 2)] and [(-1/10, 0, 0)] are both away
    from the singularities and have the same reduced shear and
    magnification, so no inverse recovers both; the inverse formulas send
    the image of the first to the second. *)
Lemma lens_roundtrip_fails_beyond_one :
  regular (1 / 10) 0 2 /\
  regular (- (1 / 10)) (- 0) (2 - 2) /\
  reduced_shear_and_magnification (1 / 10) 0 2 =
    reduced_shear_and_magnification (- (1 / 10)) (- 0) (2 - 2) /\
  lens_inverse (reduced_shear_and_magnification (1 / 10) 0 2) <> (1 / 10, 0, 2) /\
  ~ (exists inverse : R * R * R -> R * R * R,
       forall gamma1 gamma2 kappa, regular gamma1 gamma2 kappa ->
         inverse (reduced_shear_and_magnification gamma1 gamma2 kappa) =
           (gamma1, gamma2, kappa)).
Proof.
  assert (Hr1 : regular (1 / 10) 0 2) by (unfold regular; split; lra).
  assert (Hr2 : regular (- (1 / 10)) (- 0) (2 - 2)) by (unfold regular; split; lra).
  assert (Heq : reduced_shear_and_magnification (1 / 10) 0 2 =
                reduced_shear_and_magnification (- (1 / 10)) (- 0) (2 - 2))
    by (symmetry; apply lens_reflection; lra).
  repeat split; try assumption; try lra.
  - rewrite Heq, lens_inverse_roundtrip by lra.
    intros H. injection H as _ _ H. lra.
  - intros [inverse Hinv].
    pose proof (Hinv _ _ _ Hr1) as H1. pose proof (Hinv _ _ _ Hr2) as H2.
    rewrite Heq, H2 in H1. injection H1 as _ _ H. lra.
Qed.

(** C3, amended: [getLens] returns [g1 = gamma1/(1-kappa)],
    [g2 = gamma2/(1-kappa)], [mu = 1/((1-kappa)^2 - (gamma1^2 + gamma2^2))];
    when [kappa < 1] and the magnification is not singular, the inverse
    formulas give back [(gamma1, gamma2, kappa)] exactly. *)
Theorem getLens_roundtrip (self : SkyCatalogInterface) (index : Z)
    (obj : BaseObject) :
  get_skycat_obj self index = Ok obj ->
  let gamma1 := get_native_attribute obj "shear_1" in
  let gamma2 := get_native_attribute obj "shear_2" in
  let kappa := get_native_attribute obj "convergence" in
  getLens self index =
    Ok (gamma1 / (1 - kappa), gamma2 / (1 - kappa),
        1 / ((1 - kappa) ^ 2 - (gamma1 ^ 2 + gamma2 ^ 2))) /\
  (kappa < 1 -> (1 - kappa) ^ 2 <> gamma1 ^ 2 + gamma2 ^ 2 ->
   forall g, getLens self index = Ok g -> lens_inverse g = (gamma1, gamma2, kappa)).
Proof.
  intros Hobj gamma1 gamma2 kappa.
  assert (Hl : getLens self index =
               Ok (reduced_shear_and_magnification gamma1 gamma2 kappa))
    by (unfold getLens; now rewrite Hobj).
  split; [exact Hl|].
  intros Hk Hd g Hg. rewrite Hl in Hg. injection Hg as <-.
  now apply lens_inverse_roundtrip.
Qed.

Lemma getLens_roundtrip_witness :
  getLens (sample_catalog 5 (Finite 20)) 0 =
    Ok (reduced_shear_and_magnification 0.03 (- 0.04) 0.1) /\
  lens_inverse (reduced_shear_and_magnification 0.03 (- 0.04) 0.1) =
    (0.03, - 0.04, 0.1).
Proof.
  pose proof (getLens_roundtrip (sample_catalog 5 (Finite 20)) 0
                (sample_galaxy 5 (Finite 20)) eq_refl) as [Hl Hinv].
  cbn in Hl, Hinv. split; [exact Hl|].
  apply Hinv; [lra | lra | exact Hl].
Defined.

(** ** Sersic-index quantization (C4) *)

Lemma Int_part_IZR (k : Z) : Int_part (IZR k) = k.
Proof.
  unfold Int_part.
  rewrite <- (up_tech (IZR k) k); [lia | lra |].
  rewrite plus_IZR. lra.
Qed.

Lemma frac_part_IZR (k : Z) : frac_part (IZR k) = 0.
Proof. unfold frac_part. rewrite Int_part_IZR. lra. Qed.

Lemma py_round_IZR (k : Z) : py_round (IZR k) = k.
Proof.
  unfold py_round. cbv zeta. rewrite frac_part_IZR, Int_part_IZR.
  destruct (Rlt_dec 0 (1 / 2)); [reflexivity | lra].
Qed.

Lemma py_round_nearest (x : R) :
  x - 1 / 2 <= IZR (py_round x) <= x + 1 / 2.
Proof.
  unfold py_round. cbv zeta.
  pose proof (base_fp x) as [Hlo Hhi].
  assert (Hx : x = IZR (Int_part x) + frac_part x) by (unfold frac_part; lra).
  set (f := Int_part x) in *. set (d := frac_part x) in *.
  destruct (Rlt_dec d (1 / 2)) as [Hlt|Hge]; [lra|].
  destruct (Rlt_dec (1 / 2) d) as [Hgt|Hle].
  - rewrite plus_IZR. lra.
  - destruct (Z.even f); [|rewrite plus_IZR]; lra.
Qed.

(** C4: [quantize n = round(n*20.)/20.] is idempotent, is an integer
    multiple of 0.05, and lies within 0.025 of [n]. *)
Theorem quantize_idempotent_nearest (n : R) :
  quantize (quantize n) = quantize n /\
  (exists k : Z, quantize n = IZR k * 0.05) /\
  Rabs (quantize n - n) <= 0.025.
Proof.
  unfold quantize. repeat split.
  - replace (IZR (py_round (n * 20)) / 20 * 20) with (IZR (py_round (n * 20)))
      by (field; lra).
    now rewrite py_round_IZR.
  - exists (py_round (n * 20)). lra.
  - pose proof (py_round_nearest (n * 20)) as H.
    apply Rabs_le. lra.
Qed.

(** ** Magnitude to flux (C6) *)

(** C6: the flux for magnorm 0 is exactly 1, and the flux is strictly
    decreasing in the magnorm. *)
Theorem flux_of_magnorm_decreasing :
  flux_of_magnorm 0 = 1 /\
  forall magnorm1 magnorm2 : R,
    magnorm1 < magnorm2 -> flux_of_magnorm magnorm1 > flux_of_magnorm magnorm2.
Proof.
  unfold flux_of_magnorm. split.
  - replace (- 0.9210340371976184 * 0) with 0 by lra. apply exp_0.
  - intros m1 m2 H. apply exp_increasing. lra.
Qed.

Lemma flux_of_magnorm_decreasing_witness :
  flux_of_magnorm 20 > flux_of_magnorm 21.
Proof.
  destruct flux_of_magnorm_decreasing as [_ H]. apply (H 20 21). lra.
Defined.

(** ** The sky background (C8, C9) *)

Section SkyModelFacts.

Variable pars : string -> R.
Variable returnMags : R -> R -> R -> string -> R.
Variable UniformDeviate : Type.
Variable generate : UniformDeviate -> nat -> list R * UniformDeviate.
Variable sample_and_accumulate :
  PhotonArray -> R -> UniformDeviate -> Image -> Image * UniformDeviate.
Variable applyNoise : CCDNoise -> UniformDeviate -> Image -> Image * UniformDeviate.

Local Abbreviation addNoiseAndBackground_here :=
  (addNoiseAndBackground pars returnMags UniformDeviate generate
     sample_and_accumulate applyNoise).

(** The arithmetic of lines 126-127 and 129-130, on a deviate in [[0, 1)]:
    the result lies in [[min - 0.5, max + 0.5)]. *)
Lemma padded_extent (u : R) (lo hi : Z) :
  0 <= u < 1 -> (lo <= hi)%Z ->
  IZR lo - 0.5 <= u * IZR (hi - lo + 1) + (IZR lo - 0.5) < IZR hi + 0.5.
Proof.
  intros Hu Hle. rewrite plus_IZR, minus_IZR.
  apply IZR_le in Hle. nra.
Qed.

(** The first read of [photon_arra] ends the position step. *)
Lemma set_positions_raises (image : Image) (flux_per_photon : R)
    (rng : UniformDeviate) (photon_array : PhotonArray) :
  set_positions_and_flux UniformDeviate generate image flux_per_photon rng
    [("photon_array"%string, photon_array)] = Raise (NameError "photon_arra").
Proof.
  unfold set_positions_and_flux. cbn.
  destruct (generate rng (List.length (pa_x photon_array))) as [u rng'].
  reflexivity.
Qed.

Lemma background_raises (self : ESOSkyModel) (image : nat)
    (photParams : PhotometricParameters) (w : World UniformDeviate) :
  addBackground self = true ->
  addNoiseAndBackground_here self image photParams w =
    Raise (NameError "photon_arra").
Proof.
  intros Hbg. unfold addNoiseAndBackground, image_copy.
  cbv beta iota zeta. rewrite Hbg.
  destruct (allocate_sky_photons _ _) as [flux_per_photon photon_array].
  now rewrite set_positions_raises.
Qed.

(** C8: with the background enabled the position step does not complete:
    whatever the image, the call ends with [NameError] on [photon_arra]
    before any position is scaled to the padded pixel extent. *)
Theorem background_positions_NameError (md : ObservationMetaData)
    (noise : bool) (image : nat) (photParams : PhotometricParameters)
    (w : World UniformDeviate) :
  addNoiseAndBackground_here (mkESOSkyModel md noise true) image photParams w =
    Raise (NameError "photon_arra").
Proof. now apply background_raises. Qed.

Lemma py_int_IZR (k : Z) : (0 <= k)%Z -> py_int (IZR k) = k.
Proof.
  intros Hk. unfold py_int. apply IZR_le in Hk.
  destruct (Rle_dec 0 (IZR k)); [apply Int_part_IZR | contradiction].
Qed.

Lemma np_prod_shape_nonneg (image : Image) : (0 <= np_prod (shape image))%Z.
Proof.
  unfold np_prod, shape. cbn [fst snd].
  apply Z.mul_nonneg_nonneg; apply len_nonneg.
Qed.

Lemma PhotonArray_new_size (k : Z) :
  (0 <= k)%Z ->
  len (pa_x (PhotonArray_new (IZR k))) = k /\
  len (pa_y (PhotonArray_new (IZR k))) = k /\
  len (pa_flux (PhotonArray_new (IZR k))) = k.
Proof.
  intros Hk. unfold PhotonArray_new, len. cbn.
  rewrite py_int_IZR, repeat_length by assumption. lia.
Qed.

(** What line 134 would leave behind: every weight equal to the value. *)
Lemma set_flux_total (p : PhotonArray) (value : R) :
  fold_right Rplus 0 (pa_flux (set_flux p value)) = IZR (len (pa_flux p)) * value.
Proof.
  unfold set_flux, len. cbn. induction (pa_flux p) as [|f fs IH].
  - cbn. lra.
  - cbn [map fold_right List.length]. rewrite IH, Nat2Z.inj_succ, succ_IZR. lra.
Qed.

(** C9: the batch allocated for an image of N pixels has exactly 100 N
    photons and the weight computed for each is skyCounts / 100, but the
    weights are never assigned: the batch still has every flux at zero when
    the position step raises [NameError]. *)
Theorem sky_photon_weights_never_assigned (image : Image) (skyCounts : R)
    (rng : UniformDeviate) :
  let N := np_prod (shape image) in
  let flux_per_photon := fst (allocate_sky_photons image skyCounts) in
  let photon_array := snd (allocate_sky_photons image skyCounts) in
  len (pa_x photon_array) = (100 * N)%Z /\
  len (pa_flux photon_array) = (100 * N)%Z /\
  flux_per_photon = skyCounts / 100 /\
  Forall (fun f => f = 0) (pa_flux photon_array) /\
  set_positions_and_flux UniformDeviate generate image flux_per_photon rng
    [("photon_array"%string, photon_array)] = Raise (NameError "photon_arra").
Proof.
  cbv zeta. unfold allocate_sky_photons, photons_per_pixel. cbn [fst snd].
  rewrite <- mult_IZR.
  pose proof (np_prod_shape_nonneg image) as HN.
  destruct (PhotonArray_new_size (100 * np_prod (shape image))) as (Hx & _ & Hf);
    [lia|].
  repeat split; try assumption.
  - unfold PhotonArray_new. cbn. apply Forall_forall.
    intros f Hin. now apply repeat_spec in Hin.
  - apply set_positions_raises.
Qed.

(** ** Noise (C10) *)

(** Without the background the call is the copy followed by the noise
    step, handed the Quantity [skyCounts*gain]. *)
Lemma call_no_background (self : ESOSkyModel) (image : nat)
    (photParams : PhotometricParameters) (w : World UniformDeviate) :
  addBackground self = false ->
  let md := obs_metadata self in
  let skyCounts :=
    skyCountsPerSec pars
      (returnMags (pointingRA md) (pointingDec md) (mjd_TAI md) (bandpass md))
      (bandpass md) * (IZR (nexp photParams) * exptime photParams) in
  addNoiseAndBackground_here self image photParams w =
    noise_step UniformDeviate applyNoise self
      (ElectronLevel (skyCounts * gain photParams)) photParams
      (next_loc UniformDeviate w) (snd (image_copy UniformDeviate w image)).
Proof.
  intros Hbg. cbv zeta. unfold addNoiseAndBackground, image_copy.
  cbv beta iota zeta. now rewrite Hbg.
Qed.

Lemma noise_step_electrons (self : ESOSkyModel) (value : R)
    (photParams : PhotometricParameters) (l : nat) (w : World UniformDeviate) :
  addNoise self = true ->
  noise_step UniformDeviate applyNoise self (ElectronLevel value) photParams l w =
    Raise TypeError.
Proof. intros Hn. unfold noise_step. now rewrite Hn. Qed.

Lemma noise_step_off (self : ESOSkyModel) (level : sky_level_t)
    (photParams : PhotometricParameters) (l : nat) (w : World UniformDeviate) :
  addNoise self = false ->
  noise_step UniformDeviate applyNoise self level photParams l w = Ok (l, w).
Proof. intros Hn. unfold noise_step. now rewrite Hn. Qed.



(** Without noise and background the call returns an untouched copy. *)
Lemma plain_copy_returned (self : ESOSkyModel) (image : nat)
    (photParams : PhotometricParameters) (w : World UniformDeviate) :
  addBackground self = false ->
  addNoise self = false ->
  addNoiseAndBackground_here self image photParams w =
    Ok (image_copy UniformDeviate w image).
Proof.
  intros Hbg Hnoise. rewrite call_no_background by assumption.
  now rewrite noise_step_off by assumption.
Qed.

End SkyModelFacts.



(** ** Rounding ties, as Python rounds them *)

Lemma Int_part_between (x : R) (k : Z) :
  IZR k <= x < IZR k + 1 -> Int_part x = k.
Proof.
  intros [Hlo Hhi]. unfold Int_part.
  rewrite <- (up_tech x k); [lia | assumption |].
  rewrite plus_IZR. lra.
Qed.

Example round_half_is_zero : py_round (1 / 2) = 0%Z.
Proof.
  unfold py_round, frac_part. cbv zeta.
  rewrite (Int_part_between (1 / 2) 0) by lra.
  destruct (Rlt_dec (1 / 2 - 0) (1 / 2)); [lra|].
  destruct (Rlt_dec (1 / 2) (1 / 2 - 0)); [lra | reflexivity].
Qed.

Example round_three_halves_is_two : py_round (3 / 2) = 2%Z.
Proof.
  unfold py_round, frac_part. cbv zeta.
  rewrite (Int_part_between (3 / 2) 1) by lra.
  destruct (Rlt_dec (3 / 2 - 1) (1 / 2)); [lra|].
  destruct (Rlt_dec (1 / 2) (3 / 2 - 1)); [lra | reflexivity].
Qed.

Example quantize_sersic_four : quantize 4 = 4.
Proof.
  unfold quantize. replace (4 * 20) with (IZR 80) by lra.
  rewrite py_round_IZR. lra.
Qed.

(** * Further properties *)

Local Open Scope list_scope.

(** ** The sub-component index *)

Lemma len_cons {A : Type} (a : A) (l : list A) : len (a :: l) = (1 + len l)%Z.
Proof. unfold len. cbn [List.length]. lia. Qed.

Lemma len_app {A : Type} (l1 l2 : list A) : len (l1 ++ l2) = (len l1 + len l2)%Z.
Proof. unfold len. rewrite length_app. lia. Qed.

Lemma len_map {A B : Type} (f : A -> B) (l : list A) : len (map f l) = len l.
Proof. unfold len. now rewrite length_map. Qed.

Lemma getitem_front {A : Type} (l : list A) (i : Z) :
  (0 <= i < len l)%Z ->
  getitem l i = match nth_error l (Z.to_nat i) with
                | Some a => Ok a
                | None => Raise IndexError
                end.
Proof.
  intros H. unfold getitem.
  assert (Hneg : (i <? 0)%Z = false) by (apply Z.ltb_ge; lia).
  assert (Hhi : (len l <=? i)%Z = false) by (apply Z.leb_gt; lia).
  rewrite Hneg. cbv zeta. now rewrite Hneg, Hhi.
Qed.

Lemma getitem_Ok_In {A : Type} (l : list A) (i : Z) (a : A) :
  getitem l i = Ok a -> In a l.
Proof.
  unfold getitem. cbv zeta.
  destruct (_ || _); [discriminate|].
  destruct (nth_error l _) as [b|] eqn:Hn; [|discriminate].
  intros H. injection H as <-. eapply nth_error_In, Hn.
Qed.

Lemma getitem_resolves {A : Type} (l : list A) (i : Z) :
  (- len l <= i < len l)%Z -> exists a, getitem l i = Ok a.
Proof.
  intros H. destruct (Z.ltb_spec i 0).
  - rewrite getitem_from_end by lia. apply getitem_in_range. lia.
  - apply getitem_in_range. lia.
Qed.

Lemma entries_length (obj : BaseObject) :
  len (entries obj) = Z.max 1 (len (subcomponents obj)).
Proof.
  unfold entries. destruct (subcomponents obj) as [|c cs]; [reflexivity|].
  rewrite len_map, len_cons. pose proof (len_nonneg cs). lia.
Qed.

Lemma index_from_cons (k : Z) (obj : BaseObject) (rest : list BaseObject) :
  index_from k (obj :: rest) =
    map (fun component => (k, component)) (entries obj) ++ index_from (k + 1) rest.
Proof. reflexivity. Qed.

(** Every entry of the index built from position [k] points at an object of
    the list and names one of that object's components. *)
Lemma index_from_In (objs : list BaseObject) :
  forall (k i : Z) (c : component_t),
    In (i, c) (index_from k objs) ->
    (k <= i < k + len objs)%Z /\
    exists obj, nth_error objs (Z.to_nat (i - k)) = Some obj /\ In c (entries obj).
Proof.
  induction objs as [|obj rest IH]; intros k i c Hin; [destruct Hin|].
  rewrite index_from_cons in Hin. rewrite len_cons.
  pose proof (len_nonneg rest) as Hlen.
  apply in_app_or in Hin as [Hin|Hin].
  - apply in_map_iff in Hin as (c' & Heq & Hc). injection Heq as <- <-.
    split; [lia|]. exists obj. rewrite Z.sub_diag. now split.
  - apply IH in Hin as (Hrange & obj' & Hnth & Hc).
    split; [lia|]. exists obj'. split; [|assumption].
    replace (Z.to_nat (i - k)) with (S (Z.to_nat (i - (k + 1)))) by lia.
    exact Hnth.
Qed.

Lemma entries_at_app (i : Z) (l1 l2 : list (Z * component_t)) :
  entries_at i (l1 ++ l2) = entries_at i l1 ++ entries_at i l2.
Proof. unfold entries_at. now rewrite filter_app, map_app. Qed.

Lemma entries_at_same (k : Z) (cs : list component_t) :
  entries_at k (map (fun component => (k, component)) cs) = cs.
Proof.
  unfold entries_at. induction cs as [|c cs IH]; [reflexivity|].
  cbn. rewrite Z.eqb_refl. cbn. now f_equal.
Qed.

Lemma entries_at_other (i k : Z) (cs : list component_t) :
  i <> k -> entries_at i (map (fun component => (k, component)) cs) = [].
Proof.
  intros Hne. unfold entries_at. induction cs as [|c cs IH]; [reflexivity|].
  cbn. destruct (Z.eqb_spec k i); [congruence | exact IH].
Qed.

Lemma entries_at_below (objs : list BaseObject) (k i : Z) :
  (i < k)%Z -> entries_at i (index_from k objs) = [].
Proof.
  intros Hlt. unfold entries_at.
  destruct (filter _ _) as [|[j c] tl] eqn:Hf; [reflexivity|].
  assert (Hin : In (j, c) (filter (fun e => (fst e =? i)%Z) (index_from k objs)))
    by (rewrite Hf; now left).
  apply filter_In in Hin as [Hin Heq]. cbn in Heq. apply Z.eqb_eq in Heq.
  apply index_from_In in Hin as [Hrange _]. lia.
Qed.

Lemma entries_at_index_from (objs : list BaseObject) :
  forall (k i : Z) (obj : BaseObject),
    (k <= i)%Z ->
    nth_error objs (Z.to_nat (i - k)) = Some obj ->
    entries_at i (index_from k objs) = entries obj.
Proof.
  induction objs as [|o rest IH]; intros k i obj Hle Hnth.
  - destruct (Z.to_nat (i - k)); discriminate.
  - rewrite index_from_cons, entries_at_app.
    destruct (Z.eq_dec i k) as [->|Hne].
    + rewrite Z.sub_diag in Hnth. injection Hnth as <-.
      rewrite entries_at_same, entries_at_below by lia. apply app_nil_r.
    + rewrite entries_at_other by assumption. cbn [app].
      apply IH; [lia|].
      replace (Z.to_nat (i - k)) with (S (Z.to_nat (i - (k + 1)))) in Hnth by lia.
      exact Hnth.
Qed.

Lemma index_from_length (objs : list BaseObject) (k : Z) :
  len (index_from k objs) =
    fold_right (fun obj acc => (Z.max 1 (len (subcomponents obj)) + acc)%Z) 0%Z objs.
Proof.
  revert k. induction objs as [|obj rest IH]; intros k; [reflexivity|].
  rewrite index_from_cons, len_app, len_map, entries_length, IH. reflexivity.
Qed.

Lemma getitem_nth {A : Type} (l : list A) (i : Z) (a : A) :
  (0 <= i)%Z -> nth_error l (Z.to_nat i) = Some a -> getitem l i = Ok a.
Proof.
  intros Hi Hn. rewrite getitem_front; [now rewrite Hn|].
  split; [assumption|]. unfold len.
  assert (Z.to_nat i < List.length l)%nat by (apply nth_error_Some; congruence).
  lia.
Qed.

Lemma getitem_Ok_nth {A : Type} (l : list A) (i : Z) (a : A) :
  (0 <= i)%Z -> getitem l i = Ok a -> nth_error l (Z.to_nat i) = Some a.
Proof.
  intros Hi H. destruct (Z.ltb_spec i (len l)) as [Hlt|Hge].
  - rewrite getitem_front in H by lia.
    destruct (nth_error l (Z.to_nat i)); [congruence | discriminate].
  - rewrite getitem_out_of_range in H by lia. discriminate.
Qed.

Lemma entries_In (obj : BaseObject) (c : component_t) :
  In c (entries obj) <->
  (c = None /\ subcomponents obj = []) \/
  (exists s, c = Some s /\ In s (subcomponents obj)).
Proof.
  unfold entries. destruct (subcomponents obj) as [|s0 cs] eqn:Hs.
  - split.
    + intros [<-|[]]. now left.
    + intros [[-> _]|(s & _ & [])]. now left.
  - rewrite in_map_iff. split.
    + intros (s & <- & Hin). right. now exists s.
    + intros [[_ H]|(s & -> & Hin)]; [discriminate|]. now exists s.
Qed.

Lemma index_from_fst_sorted (objs : list BaseObject) :
  forall k : Z, StronglySorted Z.le (map fst (index_from k objs)).
Proof.
  induction objs as [|obj rest IH]; intros k; [constructor|].
  rewrite index_from_cons, map_app.
  induction (entries obj) as [|c cs IHc]; [apply IH|].
  cbn [map app fst]. constructor; [exact IHc|].
  apply Forall_forall. intros j Hj. apply in_app_or in Hj as [Hj|Hj].
  - apply in_map_iff in Hj as ([j' c'] & <- & Hj).
    apply in_map_iff in Hj as (c'' & Heq & _). injection Heq as <- _.
    cbn. lia.
  - apply in_map_iff in Hj as ([j' c'] & <- & Hj).
    apply index_from_In in Hj as [Hrange _]. cbn. lia.
Qed.

(** X1: every entry of the index built by [_index_subcomponents] points at
    an object of the catalog, and its component is [None] for an object
    without sub-components and one of the object's sub-components
    otherwise. *)
Theorem index_entries_valid (objs : list BaseObject) (i : Z) (c : component_t) :
  In (i, c) (_index_subcomponents objs) ->
  (0 <= i < len objs)%Z /\
  exists obj : BaseObject,
    getitem objs i = Ok obj /\
    ((c = None /\ subcomponents obj = []) \/
     (exists s, c = Some s /\ In s (subcomponents obj))).
Proof.
  intros Hin. apply index_from_In in Hin as (Hrange & obj & Hnth & Hc).
  rewrite Z.sub_0_r in Hnth. split; [lia|]. exists obj. split.
  - apply getitem_nth; [lia | exact Hnth].
  - now apply entries_In.
Qed.

Lemma index_entries_valid_witness :
  (0 <= 0 < 1)%Z /\
  exists obj : BaseObject,
    getitem [sample_galaxy 5 (Finite 20)] 0 = Ok obj /\
    ((Some "knots"%string = None /\ subcomponents obj = []) \/
     (exists s, Some "knots"%string = Some s /\ In s (subcomponents obj))).
Proof.
  apply (index_entries_valid [sample_galaxy 5 (Finite 20)] 0 (Some "knots"%string)).
  cbn. right. left. reflexivity.
Defined.

(** X2: the index entries that point at one catalog object are exactly
    that object's sub-components, once each and in their declared order;
    an object without sub-components has the single entry [None]. *)
Theorem index_entries_of_object (objs : list BaseObject) (i : Z)
    (obj : BaseObject) :
  (0 <= i)%Z ->
  getitem objs i = Ok obj ->
  entries_at i (_index_subcomponents objs) =
    match subcomponents obj with
    | [] => [None]
    | cs => map Some cs
    end.
Proof.
  intros Hi Hobj. apply getitem_Ok_nth in Hobj; [|assumption].
  apply (entries_at_index_from objs 0 i obj); [assumption|].
  now rewrite Z.sub_0_r.
Qed.

Lemma index_entries_of_object_witness :
  entries_at 0 (_index_subcomponents [sample_galaxy 5 (Finite 20)]) =
    [Some "bulge"%string; Some "knots"%string].
Proof.
  apply (index_entries_of_object [sample_galaxy 5 (Finite 20)] 0
           (sample_galaxy 5 (Finite 20))).
  - lia.
  - reflexivity.
Defined.

(** X3: the number of renderable objects is the sum over the catalog of
    the number of sub-components of each object, an object without any
    counting once; it is never below the number of catalog objects. *)
Theorem getNObjects_count (objs : list BaseObject) (flip : bool) :
  getNObjects (SkyCatalogInterface_init objs flip) =
    fold_right (fun obj acc => (Z.max 1 (len (subcomponents obj)) + acc)%Z) 0%Z objs /\
  (len objs <= getNObjects (SkyCatalogInterface_init objs flip))%Z.
Proof.
  unfold getNObjects, SkyCatalogInterface_init, _index_subcomponents. cbn [_index].
  rewrite index_from_length. split; [reflexivity|].
  induction objs as [|obj rest IH]; [reflexivity|].
  rewrite len_cons. cbn [fold_right]. lia.
Qed.

(** X4: the index keeps the catalog order: along the index the object
    indices never decrease, so the entries of one object are adjacent. *)
Theorem index_keeps_catalog_order (objs : list BaseObject) :
  StronglySorted Z.le (map fst (_index_subcomponents objs)).
Proof. apply index_from_fst_sorted. Qed.

(** X5: on an interface built by [__init__], an index resolves to a catalog
    object exactly when it lies in [[-count(), count())]: inside that range
    the stored object index is always valid. *)
Theorem get_skycat_obj_resolves_iff (objs : list BaseObject) (flip : bool)
    (index : Z) :
  let self := SkyCatalogInterface_init objs flip in
  (exists obj, get_skycat_obj self index = Ok obj /\ In obj objs) <->
  (- getNObjects self <= index < getNObjects self)%Z.
Proof.
  cbv zeta. set (self := SkyCatalogInterface_init objs flip). split.
  - intros (obj & Hobj & _).
    destruct (Z.ltb_spec index (- getNObjects self)) as [Hlo|Hlo];
      [|destruct (Z.leb_spec (getNObjects self) index) as [Hhi|Hhi]; [|lia]].
    + unfold get_skycat_obj in Hobj.
      rewrite index_lookup_fails in Hobj by lia. discriminate.
    + unfold get_skycat_obj in Hobj.
      rewrite index_lookup_fails in Hobj by lia. discriminate.
  - intros Hrange. destruct (getitem_resolves (_index self) index Hrange)
      as ([i c] & Hentry).
    pose proof (getitem_Ok_In _ _ _ Hentry) as Hin.
    apply index_from_In in Hin as (Hi & obj & Hnth & _).
    rewrite Z.sub_0_r in Hnth.
    exists obj. split.
    + unfold get_skycat_obj. rewrite Hentry. cbn.
      apply getitem_nth; [lia | exact Hnth].
    + eapply nth_error_In, Hnth.
Qed.

Lemma get_skycat_obj_resolves_iff_witness :
  exists obj, get_skycat_obj (sample_catalog 5 (Finite 20)) (-2) = Ok obj /\
              In obj [sample_galaxy 5 (Finite 20)].
Proof.
  apply (get_skycat_obj_resolves_iff [sample_galaxy 5 (Finite 20)] true (-2)).
  change (getNObjects (SkyCatalogInterface_init [sample_galaxy 5 (Finite 20)] true))
    with 2%Z.
  lia.
Defined.

(** ** The per-index queries *)

(** X6: [getSED_info] reports the catalog's magnorm unchanged, and its
    spectrum is null exactly when that magnorm is infinite, of either sign;
    a finite magnorm always comes with the spectrum of the catalog's
    table. *)
Theorem getSED_info_null_iff_infinite (self : SkyCatalogInterface)
    (index obj_index : Z) (component : component_t) (obj : BaseObject)
    (wl flambda : list R) (magnorm : magnorm_t) :
  getitem (_index self) index = Ok (obj_index, component) ->
  getitem (objects self) obj_index = Ok obj ->
  get_sed obj component = (wl, flambda, magnorm) ->
  exists info : sed_info,
    getSED_info self index = Ok info /\
    info_magnorm info = magnorm /\
    info_sed info = if isinf magnorm then None else Some (mkSED wl flambda).
Proof.
  intros Hi Ho Hsed. unfold getSED_info. rewrite Hi. cbn. rewrite Ho. cbn.
  rewrite Hsed. destruct magnorm as [m|p]; eexists; repeat split; reflexivity.
Qed.

Lemma getSED_info_null_iff_infinite_witness :
  exists info : sed_info,
    getSED_info (sample_catalog 5 (Infinite false)) 1 = Ok info /\
    info_magnorm info = Infinite false /\
    info_sed info = None.
Proof.
  apply (getSED_info_null_iff_infinite (sample_catalog 5 (Infinite false)) 1 0
           (Some "knots"%string) (sample_galaxy 5 (Infinite false))
           [400; 500; 600] [1; 1; 1] (Infinite false)); reflexivity.
Defined.

(** X7: the sky position, the lensing parameters and the dust parameters
    belong to the catalog object, not to the component: two indices whose
    entries point at the same object get the same answers. *)
Theorem components_share_object_queries (self : SkyCatalogInterface)
    (index1 index2 obj_index : Z) (component1 component2 : component_t) :
  getitem (_index self) index1 = Ok (obj_index, component1) ->
  getitem (_index self) index2 = Ok (obj_index, component2) ->
  getWorldPos self index1 = getWorldPos self index2 /\
  getLens self index1 = getLens self index2 /\
  forall band : string, getDust self index1 band = getDust self index2 band.
Proof.
  intros H1 H2. unfold getWorldPos, getLens, getDust, get_skycat_obj.
  rewrite H1, H2. repeat split.
Qed.

Lemma components_share_object_queries_witness :
  getWorldPos (sample_catalog 5 (Finite 20)) 0 =
    getWorldPos (sample_catalog 5 (Finite 20)) 1 /\
  getLens (sample_catalog 5 (Finite 20)) 0 =
    getLens (sample_catalog 5 (Finite 20)) 1 /\
  forall band : string,
    getDust (sample_catalog 5 (Finite 20)) 0 band =
      getDust (sample_catalog 5 (Finite 20)) 1 band.
Proof.
  apply (components_share_object_queries (sample_catalog 5 (Finite 20)) 0 1 0
           (Some "bulge"%string) (Some "knots"%string)); reflexivity.
Defined.

(** X8: in the weak-lensing regime, [kappa < 1] and
    [gamma1^2 + gamma2^2 < (1 - kappa)^2], [getLens] returns a positive
    magnification and a reduced shear of modulus below one. *)
Theorem getLens_weak_regime (self : SkyCatalogInterface) (index : Z)
    (obj : BaseObject) :
  get_skycat_obj self index = Ok obj ->
  let gamma1 := get_native_attribute obj "shear_1" in
  let gamma2 := get_native_attribute obj "shear_2" in
  let kappa := get_native_attribute obj "convergence" in
  kappa < 1 ->
  gamma1 ^ 2 + gamma2 ^ 2 < (1 - kappa) ^ 2 ->
  exists g1 g2 mu : R,
    getLens self index = Ok (g1, g2, mu) /\
    0 < mu /\
    g1 ^ 2 + g2 ^ 2 < 1.
Proof.
  intros Hobj gamma1 gamma2 kappa Hk Hg.
  unfold getLens, reduced_shear_and_magnification. rewrite Hobj.
  cbn [bind]. cbv zeta. fold gamma1 gamma2 kappa.
  clearbody gamma1 gamma2 kappa.
  do 3 eexists. split; [reflexivity|].
  assert (Hd : 0 < 1 - kappa) by lra.
  split.
  - apply Rdiv_lt_0_compat; lra.
  - replace ((gamma1 / (1 - kappa)) ^ 2 + (gamma2 / (1 - kappa)) ^ 2)
      with ((gamma1 ^ 2 + gamma2 ^ 2) / (1 - kappa) ^ 2) by (field; lra).
    apply Rmult_lt_reg_r with ((1 - kappa) ^ 2); [nra|].
    replace ((gamma1 ^ 2 + gamma2 ^ 2) / (1 - kappa) ^ 2 * (1 - kappa) ^ 2)
      with (gamma1 ^ 2 + gamma2 ^ 2) by (field; lra).
    nra.
Qed.

Lemma getLens_weak_regime_witness :
  exists g1 g2 mu : R,
    getLens (sample_catalog 5 (Finite 20)) 0 = Ok (g1, g2, mu) /\
    0 < mu /\
    g1 ^ 2 + g2 ^ 2 < 1.
Proof.
  apply (getLens_weak_regime (sample_catalog 5 (Finite 20)) 0
           (sample_galaxy 5 (Finite 20)) eq_refl); cbn; lra.
Defined.

(** ** What [getObj] builds *)

Lemma rubin_area_pos : 0 < _rubin_area.
Proof. unfold _rubin_area. pose proof PI_RGT_0. nra. Qed.

Lemma flux_of_magnorm_pos (magnorm : R) : 0 < flux_of_magnorm magnorm.
Proof. apply exp_pos. Qed.

Lemma Rgtb_true (x y : R) : x > y -> Rgtb x y = true.
Proof. intros H. unfold Rgtb. destruct (Rgt_dec x y); [reflexivity | contradiction]. Qed.

Section GetObjBuilds.

Variable Bandpass : Type.
Variable calculateFlux : SED -> Bandpass -> R.
Variable self : SkyCatalogInterface.
Variable index : Z.
Variable gsparams : option GSParams.
Variable rng : option BaseDeviate.

Local Abbreviation getObj_at :=
  (getObj Bandpass calculateFlux self index gsparams rng).
Local Abbreviation scaled :=
  (scale_flux Bandpass calculateFlux).

Lemma unscaled_scale_flux (o : GSObject) (sed : SED) (magnorm : R)
    (bandpass : Bandpass) (chromatic : bool) (exp_time : R) :
  unscaled (scaled o sed magnorm bandpass chromatic exp_time) = o.
Proof. unfold scale_flux. now destruct chromatic. Qed.

Lemma total_flux_scale_flux (o : GSObject) (sed : SED) (magnorm : R)
    (bandpass : Bandpass) (chromatic : bool) (exp_time : R) :
  total_flux (scaled o sed magnorm bandpass chromatic exp_time) =
    Some ((if chromatic then 1 else calculateFlux sed bandpass) *
          (flux_of_magnorm magnorm * _rubin_area * exp_time)).
Proof.
  unfold scale_flux. destruct chromatic; cbn [total_flux]; f_equal; lra.
Qed.

(** X9: a star that passes the guard is a delta function whatever its
    component and attributes, with neither shear nor lensing, scaled to
    the flux [flux(magnorm) * area * exp_time]: chromatic, that flux with
    the spectrum attached; otherwise the spectrum's integral through the
    bandpass times that flux. *)
Theorem getObj_star (obj_index : Z) (component : component_t)
    (obj : BaseObject) (sed : SED) (magnorm : R)
    (bandpass : Bandpass) (chromatic : bool) (exp_time : R) :
  getitem (_index self) index = Ok (obj_index, component) ->
  getitem (objects self) obj_index = Ok obj ->
  object_type obj = "star"%string ->
  getSED_info self index = Ok (WithSED sed magnorm) ->
  magnorm < 50 ->
  let fAt := flux_of_magnorm magnorm * _rubin_area * exp_time in
  getObj_at bandpass chromatic exp_time =
    Ok (Some (if chromatic
              then TimesSED (WithFlux (DeltaFunction gsparams) fAt) sed
              else WithFlux (DeltaFunction gsparams)
                     (calculateFlux sed bandpass * fAt))).
Proof.
  intros Hi Ho Hty Hs Hm fAt.
  rewrite (getObj_rendered _ _ _ _ _ _ _ _ _ _ _ _ _ _ Hi Ho Hs Hm).
  unfold build_profile. rewrite Hty. cbn [String.eqb Ascii.eqb Bool.eqb bind].
  unfold scale_flux. now destruct chromatic.
Qed.

(** X10: an object that passes the guard and is neither a star nor a
    galaxy bulge, disk or knots component makes [getObj] raise
    [RuntimeError]; the message ends with the component, [None] when there
    is none. *)
Theorem getObj_unsupported (obj_index : Z) (component : component_t)
    (obj : BaseObject) (sed : SED) (magnorm : R)
    (bandpass : Bandpass) (chromatic : bool) (exp_time : R) :
  getitem (_index self) index = Ok (obj_index, component) ->
  getitem (objects self) obj_index = Ok obj ->
  object_type obj <> "star"%string ->
  object_type obj <> "galaxy"%string \/
    component_in component ["bulge"; "disk"; "knots"]%string = false ->
  getSED_info self index = Ok (WithSED sed magnorm) ->
  magnorm < 50 ->
  getObj_at bandpass chromatic exp_time =
    Raise (RuntimeError
             ("Do not know how to handle object type: " ++
              match component with
              | Some c => c
              | None => "None"
              end)%string).
Proof.
  intros Hi Ho Hstar Hbad Hs Hm.
  rewrite (getObj_rendered _ _ _ _ _ _ _ _ _ _ _ _ _ _ Hi Ho Hs Hm).
  unfold build_profile.
  apply String.eqb_neq in Hstar. rewrite Hstar.
  assert (Hcond : String.eqb (object_type obj) "galaxy" &&
                  component_in component ["bulge"; "disk"; "knots"]%string = false).
  { destruct Hbad as [Hg|Hc].
    - apply String.eqb_neq in Hg. now rewrite Hg.
    - rewrite Hc. apply andb_false_r. }
  rewrite Hcond. reflexivity.
Qed.

(** X11: a galaxy bulge or disk that passes the guard, with axes
    [0 < b <= a], a quantized Sersic index inside galsim's range
    [[0.3, 6.2]] and lensing in the weak regime, is returned as a Sersic
    profile of that quantized index and half-light radius [sqrt (a b)],
    sheared with [q = b / a] at [90 - pa] or [90 + pa] by [flip_g2], lensed
    with the reduced shear and magnification of the object, and scaled to
    the flux. *)
Theorem getObj_sersic (obj_index : Z) (component : string)
    (obj : BaseObject) (sed : SED) (magnorm : R)
    (bandpass : Bandpass) (chromatic : bool) (exp_time : R) :
  getitem (_index self) index = Ok (obj_index, Some component) ->
  getitem (objects self) obj_index = Ok obj ->
  object_type obj = "galaxy"%string ->
  In component ["bulge"; "disk"]%string ->
  getSED_info self index = Ok (WithSED sed magnorm) ->
  magnorm < 50 ->
  let a := get_native_attribute obj ("size_" ++ component ++ "_true")%string in
  let b := get_native_attribute obj ("size_minor_" ++ component ++ "_true")%string in
  let pa := get_native_attribute obj "position_angle_unlensed" in
  let n := get_native_attribute obj ("sersic_" ++ component)%string in
  let gamma1 := get_native_attribute obj "shear_1" in
  let gamma2 := get_native_attribute obj "shear_2" in
  let kappa := get_native_attribute obj "convergence" in
  0 < b ->
  a >= b ->
  0.3 <= quantize n <= 6.2 ->
  kappa < 1 ->
  gamma1 ^ 2 + gamma2 ^ 2 < (1 - kappa) ^ 2 ->
  let profile :=
    Lensed (Sheared (Sersic (quantize n) (sqrt (a * b)) gsparams)
              (b / a) (if flip_g2 self then 90 - pa else 90 + pa))
      (gamma1 / (1 - kappa)) (gamma2 / (1 - kappa))
      (1 / ((1 - kappa) ^ 2 - (gamma1 ^ 2 + gamma2 ^ 2))) in
  let fAt := flux_of_magnorm magnorm * _rubin_area * exp_time in
  getObj_at bandpass chromatic exp_time =
    Ok (Some (if chromatic then TimesSED (WithFlux profile fAt) sed
              else WithFlux profile (calculateFlux sed bandpass * fAt))).
Proof.
  intros Hi Ho Hty Hin Hs Hm a b pa n gamma1 gamma2 kappa Hb Hab Hn Hk Hg
    profile fAt.
  rewrite (getObj_rendered _ _ _ _ _ _ _ _ _ _ _ _ _ _ Hi Ho Hs Hm).
  assert (Hl : getLens self index =
               Ok (reduced_shear_and_magnification gamma1 gamma2 kappa))
    by (unfold getLens, get_skycat_obj; rewrite Hi; cbn [bind]; now rewrite Ho).
  unfold build_profile. rewrite Hty, Hl.
  apply Rgeb_true in Hab.
  destruct Hin as [<- | [<- | []]];
    cbn [String.eqb Ascii.eqb Bool.eqb andb component_in existsb orb];
    unfold galaxy_profile;
    cbn [String.eqb Ascii.eqb Bool.eqb]; cbv zeta;
    subst a b; rewrite Hab; cbn [bind py_assert];
    unfold reduced_shear_and_magnification, scale_flux; cbv zeta;
    now destruct chromatic.
Qed.

(** X12: a knots component that passes the guard, with a positive whole
    number [n_knots], disk axes [0 < b <= a] and lensing in the weak
    regime, is returned as a clumpy profile of [n_knots] points on the
    caller's random deviate that borrows the disk's axes (half-light radius
    [sqrt (a b)], shear [q = b / a]), lensed and scaled to the flux. *)
Theorem getObj_knots (obj_index : Z) (obj : BaseObject) (sed : SED)
    (magnorm : R) (bandpass : Bandpass) (chromatic : bool) (exp_time : R) :
  getitem (_index self) index = Ok (obj_index, Some "knots"%string) ->
  getitem (objects self) obj_index = Ok obj ->
  object_type obj = "galaxy"%string ->
  getSED_info self index = Ok (WithSED sed magnorm) ->
  magnorm < 50 ->
  let a := get_native_attribute obj "size_disk_true" in
  let b := get_native_attribute obj "size_minor_disk_true" in
  let pa := get_native_attribute obj "position_angle_unlensed" in
  let npoints := get_native_attribute obj "n_knots" in
  let gamma1 := get_native_attribute obj "shear_1" in
  let gamma2 := get_native_attribute obj "shear_2" in
  let kappa := get_native_attribute obj "convergence" in
  0 < b ->
  a >= b ->
  npoints > 0 ->
  (exists k : Z, npoints = IZR k) ->
  kappa < 1 ->
  gamma1 ^ 2 + gamma2 ^ 2 < (1 - kappa) ^ 2 ->
  let profile :=
    Lensed (Sheared (RandomKnots npoints (sqrt (a * b)) rng gsparams)
              (b / a) (if flip_g2 self then 90 - pa else 90 + pa))
      (gamma1 / (1 - kappa)) (gamma2 / (1 - kappa))
      (1 / ((1 - kappa) ^ 2 - (gamma1 ^ 2 + gamma2 ^ 2))) in
  let fAt := flux_of_magnorm magnorm * _rubin_area * exp_time in
  getObj_at bandpass chromatic exp_time =
    Ok (Some (if chromatic then TimesSED (WithFlux profile fAt) sed
              else WithFlux profile (calculateFlux sed bandpass * fAt))).
Proof.
  intros Hi Ho Hty Hs Hm a b pa npoints gamma1 gamma2 kappa Hb Hab Hn Hint Hk Hg
    profile fAt.
  rewrite (getObj_rendered _ _ _ _ _ _ _ _ _ _ _ _ _ _ Hi Ho Hs Hm).
  assert (Hl : getLens self index =
               Ok (reduced_shear_and_magnification gamma1 gamma2 kappa))
    by (unfold getLens, get_skycat_obj; rewrite Hi; cbn [bind]; now rewrite Ho).
  unfold build_profile. rewrite Hty, Hl.
  apply Rgeb_true in Hab. apply Rgtb_true in Hn.
  cbn [String.eqb Ascii.eqb Bool.eqb andb component_in existsb orb].
  unfold galaxy_profile.
  cbn [String.eqb Ascii.eqb Bool.eqb String.append]. cbv zeta.
  subst a b npoints. rewrite Hab. cbn [bind py_assert]. rewrite Hn.
  cbn [bind py_assert].
  unfold reduced_shear_and_magnification, scale_flux. cbv zeta.
  now destruct chromatic.
Qed.

End GetObjBuilds.

Lemma getObj_star_witness :
  getObj unit (fun _ _ => 1) sample_mixed_catalog 2 None None tt false 30 =
    Ok (Some (WithFlux (DeltaFunction None)
                (1 * (flux_of_magnorm 18 * _rubin_area * 30)))).
Proof.
  apply (getObj_star unit (fun _ _ => 1) sample_mixed_catalog 2 None None
           1%Z None sample_star (mkSED [400; 500; 600] [2; 2; 2]) 18 tt false 30);
    try reflexivity.
  lra.
Defined.

Lemma getObj_unsupported_witness :
  getObj unit (fun _ _ => 1) sample_mixed_catalog 3 None None tt false 30 =
    Raise (RuntimeError "Do not know how to handle object type: None").
Proof.
  apply (getObj_unsupported unit (fun _ _ => 1) sample_mixed_catalog 3 None None
           2%Z None sample_bare_galaxy (mkSED [400; 500; 600] [3; 3; 3]) 22
           tt false 30); try reflexivity.
  - discriminate.
  - right. reflexivity.
  - lra.
Defined.

Lemma getObj_sersic_witness :
  getObj unit (fun _ _ => 1) sample_mixed_catalog 0 None None tt true 30 =
    Ok (Some (TimesSED
                (WithFlux
                   (Lensed (Sheared (Sersic (quantize 4) (sqrt (2 * 1)) None)
                              (1 / 2) (90 + 30))
                      (0.03 / (1 - 0.1)) (- 0.04 / (1 - 0.1))
                      (1 / ((1 - 0.1) ^ 2 - (0.03 ^ 2 + (- 0.04) ^ 2))))
                   (flux_of_magnorm 20 * _rubin_area * 30))
                (mkSED [400; 500; 600] [1; 1; 1]))).
Proof.
  apply (getObj_sersic unit (fun _ _ => 1) sample_mixed_catalog 0 None None
           0%Z "bulge"%string (sample_galaxy 5 (Finite 20))
           (mkSED [400; 500; 600] [1; 1; 1]) 20 tt true 30); try reflexivity.
  - left. reflexivity.
  - lra.
  - cbn. lra.
  - cbn. lra.
  - change (0.3 <= quantize 4 <= 6.2). rewrite quantize_sersic_four. lra.
  - cbn. lra.
  - cbn. lra.
Defined.

Lemma getObj_knots_witness :
  getObj unit (fun _ _ => 1) sample_mixed_catalog 1 None (Some 7%Z) tt true 30 =
    Ok (Some (TimesSED
                (WithFlux
                   (Lensed (Sheared (RandomKnots 5 (sqrt (2 * 1)) (Some 7%Z) None)
                              (1 / 2) (90 + 30))
                      (0.03 / (1 - 0.1)) (- 0.04 / (1 - 0.1))
                      (1 / ((1 - 0.1) ^ 2 - (0.03 ^ 2 + (- 0.04) ^ 2))))
                   (flux_of_magnorm 20 * _rubin_area * 30))
                (mkSED [400; 500; 600] [1; 1; 1]))).
Proof.
  apply (getObj_knots unit (fun _ _ => 1) sample_mixed_catalog 1 None (Some 7%Z)
           0%Z (sample_galaxy 5 (Finite 20))
           (mkSED [400; 500; 600] [1; 1; 1]) 20 tt true 30); try reflexivity.
  - lra.
  - cbn. lra.
  - cbn. lra.
  - cbn. lra.
  - now exists 5%Z.
  - cbn. lra.
  - cbn. lra.
Defined.

(** ** Flux scaling *)

Section GetObjFlux.

Variable Bandpass : Type.
Variable calculateFlux : SED -> Bandpass -> R.
Variable self : SkyCatalogInterface.
Variable index : Z.
Variable gsparams : option GSParams.
Variable rng : option BaseDeviate.

Local Abbreviation getObj_for :=
  (getObj Bandpass calculateFlux self index gsparams rng).

(** X13: the bandpass, the chromatic switch and the exposure time change
    nothing but the flux: if one call returns an object, every other call
    for that index returns the same profile, with flux
    [flux(magnorm) * area * exp_time], times the spectrum's integral
    through the bandpass unless chromatic. *)
Theorem getObj_flux_scaling (sed : SED) (magnorm : R) (o : GSObject)
    (bandpass : Bandpass) (chromatic : bool) (exp_time : R) :
  getSED_info self index = Ok (WithSED sed magnorm) ->
  getObj_for bandpass chromatic exp_time = Ok (Some o) ->
  forall (bandpass' : Bandpass) (chromatic' : bool) (exp_time' : R),
  exists o' : GSObject,
    getObj_for bandpass' chromatic' exp_time' = Ok (Some o') /\
    unscaled o' = unscaled o /\
    total_flux o' =
      Some ((if chromatic' then 1 else calculateFlux sed bandpass') *
            (flux_of_magnorm magnorm * _rubin_area * exp_time')).
Proof.
  intros Hs Hcall bandpass' chromatic' exp_time'. unfold getObj in *.
  destruct (getitem (_index self) index) as [[oi c]|e]; [|discriminate].
  cbn [bind] in *.
  destruct (getitem (objects self) oi) as [obj|e]; [|discriminate].
  cbn [bind] in *. rewrite Hs in *. cbn [bind] in *.
  destruct (Rgeb magnorm 50); [discriminate|].
  destruct (build_profile self index obj c gsparams rng) as [p|e]; [|discriminate].
  cbn [bind] in *. injection Hcall as <-.
  eexists. split; [reflexivity|].
  rewrite !unscaled_scale_flux. split; [reflexivity|].
  apply total_flux_scale_flux.
Qed.

(** X14: a chromatic object returned for a positive exposure time carries a
    strictly positive flux. *)
Theorem getObj_chromatic_flux_positive (o : GSObject) (bandpass : Bandpass)
    (exp_time : R) :
  getObj_for bandpass true exp_time = Ok (Some o) ->
  0 < exp_time ->
  exists flux : R, total_flux o = Some flux /\ 0 < flux.
Proof.
  intros Hcall Ht. unfold getObj in Hcall.
  destruct (getitem (_index self) index) as [[oi c]|e]; [|discriminate].
  cbn [bind] in Hcall.
  destruct (getitem (objects self) oi) as [obj|e]; [|discriminate].
  cbn [bind] in Hcall.
  destruct (getSED_info self index) as [[m|sed m]|e]; try discriminate.
  cbn [bind] in Hcall.
  destruct (Rgeb m 50); [discriminate|].
  destruct (build_profile self index obj c gsparams rng) as [p|e]; [|discriminate].
  cbn [bind] in Hcall. injection Hcall as <-.
  cbn [total_flux]. eexists. split; [reflexivity|].
  pose proof rubin_area_pos. pose proof (flux_of_magnorm_pos m).
  apply Rmult_lt_0_compat; [apply Rmult_lt_0_compat|]; assumption.
Qed.

(** X15: [getObj] returns [None] exactly when the index resolves to a null
    spectrum or to a magnorm of at least 50: the guard of lines 176-178 is
    its only way to return [None], whatever the other arguments. *)
Theorem getObj_None_iff_guard (bandpass : Bandpass) (chromatic : bool)
    (exp_time : R) :
  getObj_for bandpass chromatic exp_time = Ok None <->
  exists info : sed_info,
    getSED_info self index = Ok info /\
    (info_sed info = None \/ magnorm_ge (info_magnorm info) 50 = true).
Proof.
  split.
  - unfold getObj. intros Hcall.
    destruct (getitem (_index self) index) as [[oi c]|e]; [|discriminate].
    cbn [bind] in Hcall.
    destruct (getitem (objects self) oi) as [obj|e]; [|discriminate].
    cbn [bind] in Hcall.
    destruct (getSED_info self index) as [[m|sed m]|e]; [| |discriminate].
    + exists (NoSED m). split; [reflexivity|]. now left.
    + cbn [bind] in Hcall. exists (WithSED sed m). split; [reflexivity|].
      right. cbn [info_magnorm magnorm_ge].
      destruct (Rgeb m 50); [reflexivity|].
      destruct (build_profile self index obj c gsparams rng); discriminate.
  - intros (info & Hs & Hguard).
    destruct (getSED_info_lookups _ _ _ Hs) as (oi & c & obj & Hi & Ho).
    unfold getObj. rewrite Hi. cbn [bind]. rewrite Ho. cbn [bind].
    rewrite Hs. cbn [bind].
    destruct info as [m|sed m]; [reflexivity|].
    cbn in Hguard. destruct Hguard as [H|H]; [discriminate|]. now rewrite H.
Qed.

End GetObjFlux.

Lemma getObj_None_iff_guard_witness :
  getObj unit (fun _ _ => 1) (sample_catalog 5 (Infinite false)) 0 None None tt
    true 30 = Ok None.
Proof.
  apply (getObj_None_iff_guard unit (fun _ _ => 1)
           (sample_catalog 5 (Infinite false)) 0 None None tt true 30).
  exists (NoSED (Infinite false)). split; [reflexivity|]. now left.
Defined.

Lemma getObj_flux_scaling_witness :
  exists o' : GSObject,
    getObj unit (fun _ _ => 1) sample_mixed_catalog 2 None None tt true 60 =
      Ok (Some o') /\
    total_flux o' = Some (1 * (flux_of_magnorm 18 * _rubin_area * 60)).
Proof.
  assert (Hcall0 :
    getObj unit (fun _ _ => 1) sample_mixed_catalog 2 None None tt false 30 =
      Ok (Some (scale_flux unit (fun _ _ => 1) (DeltaFunction None)
                  (mkSED [400; 500; 600] [2; 2; 2]) 18 tt false 30)))
    by (rewrite (getObj_rendered unit (fun _ _ => 1) sample_mixed_catalog 2
                   None None tt false 30 1%Z None sample_star
                   (mkSED [400; 500; 600] [2; 2; 2]) 18 eq_refl eq_refl eq_refl);
        [reflexivity | lra]).
  destruct (getObj_flux_scaling unit (fun _ _ => 1) sample_mixed_catalog 2 None
              None (mkSED [400; 500; 600] [2; 2; 2]) 18 _ tt false 30
              eq_refl Hcall0 tt true 60) as (o' & Hcall & _ & Hflux).
  exists o'. split; [exact Hcall | exact Hflux].
Defined.

Lemma getObj_chromatic_flux_positive_witness :
  exists flux : R,
    total_flux (scale_flux unit (fun _ _ => 1) (DeltaFunction None)
                  (mkSED [400; 500; 600] [2; 2; 2]) 18 tt true 30) = Some flux /\
    0 < flux.
Proof.
  apply (getObj_chromatic_flux_positive unit (fun _ _ => 1) sample_mixed_catalog
           2 None None _ tt 30).
  - rewrite (getObj_rendered unit (fun _ _ => 1) sample_mixed_catalog 2
               None None tt true 30 1%Z None sample_star
               (mkSED [400; 500; 600] [2; 2; 2]) 18 eq_refl eq_refl eq_refl);
      [reflexivity | lra].
  - lra.
Defined.

(** ** More on the Sersic quantization and the galaxy shape *)

Lemma py_round_monotone (x y : R) : x <= y -> (py_round x <= py_round y)%Z.
Proof.
  intros Hxy. destruct (Z_le_gt_dec (py_round x) (py_round y)) as [Hle|Hgt];
    [assumption|exfalso].
  assert (Hz : (py_round y + 1 <= py_round x)%Z) by lia.
  apply IZR_le in Hz. rewrite plus_IZR in Hz.
  pose proof (py_round_nearest x) as [_ Hx].
  pose proof (py_round_nearest y) as [Hy _].
  assert (Heq : x = y) by lra. subst y. lia.
Qed.

(** X16: quantization preserves order: a larger Sersic index never gets a
    smaller quantized value. *)
Theorem quantize_monotone (n1 n2 : R) :
  n1 <= n2 -> quantize n1 <= quantize n2.
Proof.
  intros H. unfold quantize.
  assert (Hr : (py_round (n1 * 20) <= py_round (n2 * 20))%Z)
    by (apply py_round_monotone; lra).
  apply IZR_le in Hr. lra.
Qed.

Lemma quantize_monotone_witness : quantize 1 <= quantize 4.
Proof. apply (quantize_monotone 1 4). lra. Defined.

(** X17: the values quantization leaves unchanged are exactly the integer
    multiples of 1/20. *)
Theorem quantize_fixed_points (n : R) :
  quantize n = n <-> exists k : Z, n = IZR k / 20.
Proof.
  unfold quantize. split.
  - intros H. exists (py_round (n * 20)). now symmetry.
  - intros [k ->].
    replace (IZR k / 20 * 20) with (IZR k) by (field; lra).
    now rewrite py_round_IZR.
Qed.

Lemma quantize_fixed_points_witness : quantize (IZR 7 / 20) = IZR 7 / 20.
Proof. apply (quantize_fixed_points (IZR 7 / 20)). now exists 7%Z. Defined.

(** X18: whenever the galaxy branch builds a profile from a positive minor
    axis, the axis ratio of its shear lies in (0, 1] and its half-light
    radius lies between the minor and the major axis. *)
Theorem galaxy_profile_axes (flip : bool) (obj : BaseObject)
    (component : string) (gsparams : option GSParams)
    (rng : option BaseDeviate) (o : GSObject) :
  galaxy_profile flip obj component gsparams rng = Ok o ->
  let my_component :=
    if String.eqb component "knots" then "disk"%string else component in
  let a := get_native_attribute obj ("size_" ++ my_component ++ "_true")%string in
  let b := get_native_attribute obj ("size_minor_" ++ my_component ++ "_true")%string in
  0 < b ->
  exists q beta hlr : R,
    applied_shear o = Some (q, beta) /\
    0 < q <= 1 /\
    profile_half_light_radius o = Some hlr /\
    b <= hlr <= a.
Proof.
  intros Hbuild my_component a b Hb. unfold galaxy_profile in Hbuild.
  cbv zeta in Hbuild. fold my_component in Hbuild. fold a b in Hbuild.
  unfold Rgeb in Hbuild. destruct (Rge_dec a b) as [Hab|Hab]; [|discriminate].
  cbn [py_assert bind] in Hbuild.
  assert (Hq : 0 < b / a <= 1).
  { split; [apply Rdiv_lt_0_compat; lra|].
    apply Rmult_le_reg_r with a; [lra|].
    replace (b / a * a) with b by (field; lra). lra. }
  assert (Hh : b <= sqrt (a * b) <= a).
  { split.
    - rewrite <- (sqrt_square b) at 1 by lra. apply sqrt_le_1_alt. nra.
    - rewrite <- (sqrt_square a) at 2 by lra. apply sqrt_le_1_alt. nra. }
  destruct (String.eqb component "knots").
  - destruct (Rgtb (get_native_attribute obj "n_knots") 0); [|discriminate].
    cbn [py_assert bind] in Hbuild. injection Hbuild as <-.
    exists (b / a), (if flip then 90 - get_native_attribute obj "position_angle_unlensed"
                     else 90 + get_native_attribute obj "position_angle_unlensed"),
      (sqrt (a * b)).
    repeat split; try apply Hq; apply Hh.
  - cbn [bind] in Hbuild. injection Hbuild as <-.
    exists (b / a), (if flip then 90 - get_native_attribute obj "position_angle_unlensed"
                     else 90 + get_native_attribute obj "position_angle_unlensed"),
      (sqrt (a * b)).
    repeat split; try apply Hq; apply Hh.
Qed.

Lemma galaxy_profile_axes_witness :
  exists q beta hlr : R,
    applied_shear (Sheared (Sersic (quantize 4) (sqrt (2 * 1)) None) (1 / 2) (90 - 30)) =
      Some (q, beta) /\
    0 < q <= 1 /\
    profile_half_light_radius
      (Sheared (Sersic (quantize 4) (sqrt (2 * 1)) None) (1 / 2) (90 - 30)) = Some hlr /\
    1 <= hlr <= 2.
Proof.
  apply (galaxy_profile_axes true (sample_galaxy 5 (Finite 20)) "bulge" None None).
  - unfold galaxy_profile. cbn. now rewrite Rgeb_true by lra.
  - cbn. lra.
Defined.

(** ** Sky counts *)

Section SkyCountsFacts.

Variable pars : string -> R.

(** X19: at the reference brightness [B0] the rate is the band's zero
    point times the pixel area and the effective area, and a sky five
    magnitudes fainter gives exactly a hundredth of the counts. *)
Theorem skyCountsPerSec_magnitude_scale (surface_brightness : R)
    (filter_band : string) :
  skyCountsPerSec pars (pars "B0") filter_band =
    pars filter_band * 0.2 ^ 2 * 32.4 /\
  skyCountsPerSec pars (surface_brightness + 5) filter_band =
    skyCountsPerSec pars surface_brightness filter_band / 100.
Proof.
  unfold skyCountsPerSec. cbv zeta. split.
  - replace (- 0.4 * (pars "B0" - pars "B0")) with 0 by lra.
    rewrite Rpower_O by lra. lra.
  - replace (- 0.4 * (surface_brightness + 5 - pars "B0"))
      with (- 0.4 * (surface_brightness - pars "B0") + - INR 2)
      by (cbn [INR]; lra).
    rewrite Rpower_plus, Rpower_Ropp, Rpower_pow by lra.
    field.
Qed.

(** X20: for a band with a positive zero point the rate is positive and
    strictly decreasing in the surface-brightness magnitude. *)
Theorem skyCountsPerSec_decreasing (filter_band : string) (sb1 sb2 : R) :
  0 < pars filter_band ->
  sb1 < sb2 ->
  0 < skyCountsPerSec pars sb2 filter_band < skyCountsPerSec pars sb1 filter_band.
Proof.
  intros Hs0 Hlt. unfold skyCountsPerSec. cbv zeta.
  set (p2 := Rpower 10 (- 0.4 * (sb2 - pars "B0"))).
  set (p1 := Rpower 10 (- 0.4 * (sb1 - pars "B0"))).
  assert (Hp2 : 0 < p2) by apply exp_pos.
  assert (Hp : p2 < p1) by (apply Rpower_lt; lra).
  split; nra.
Qed.

End SkyCountsFacts.

Lemma skyCountsPerSec_decreasing_witness :
  0 < skyCountsPerSec (fun _ => 1) 22 "r" < skyCountsPerSec (fun _ => 1) 21 "r".
Proof. apply (skyCountsPerSec_decreasing (fun _ => 1) "r" 21 22); lra. Defined.

(** ** What a call of [addNoiseAndBackground] may change *)

Section AddNoiseFrame.

Variable pars : string -> R.
Variable returnMags : R -> R -> R -> string -> R.
Variable UniformDeviate : Type.
Variable generate : UniformDeviate -> nat -> list R * UniformDeviate.
Variable sample_and_accumulate :
  PhotonArray -> R -> UniformDeviate -> Image -> Image * UniformDeviate.
Variable applyNoise : CCDNoise -> UniformDeviate -> Image -> Image * UniformDeviate.

Local Abbreviation call :=
  (addNoiseAndBackground pars returnMags UniformDeviate generate
     sample_and_accumulate applyNoise).

(** The three ways a call can end, by its two switches. *)
Lemma call_outcome (self : ESOSkyModel) (image : nat)
    (photParams : PhotometricParameters) (w : World UniformDeviate) :
  call self image photParams w =
    if addBackground self then Raise (NameError "photon_arra")
    else if addNoise self then Raise TypeError
    else Ok (image_copy UniformDeviate w image).
Proof.
  destruct (addBackground self) eqn:Hbg.
  - now apply background_raises.
  - rewrite call_no_background by assumption.
    destruct (addNoise self) eqn:Hn.
    + now apply noise_step_electrons.
    + now rewrite noise_step_off by assumption.
Qed.

(** X21: a call that returns never touches an image that existed before
    it: the result is a newly allocated image, and every other location of
    the world, the caller's image included, holds what it held. *)
Theorem addNoiseAndBackground_frame (self : ESOSkyModel) (image : nat)
    (photParams : PhotometricParameters) (w w' : World UniformDeviate)
    (returned : nat) :
  call self image photParams w = Ok (returned, w') ->
  returned = next_loc UniformDeviate w /\
  next_loc UniformDeviate w' = S (next_loc UniformDeviate w) /\
  forall l : nat, l <> returned ->
    images UniformDeviate w' l = images UniformDeviate w l.
Proof.
  intros Hcall. rewrite call_outcome in Hcall.
  destruct (addBackground self); [discriminate|].
  destruct (addNoise self); [discriminate|].
  unfold image_copy in Hcall. injection Hcall as <- <-.
  repeat split. intros l Hl. cbn [images].
  apply Nat.eqb_neq in Hl. now rewrite Hl.
Qed.


(** X23: with neither background nor noise the returned image is an exact
    copy of the input and the random deviate is not advanced. *)
Theorem addNoiseAndBackground_plain_copy (self : ESOSkyModel) (image : nat)
    (photParams : PhotometricParameters) (w : World UniformDeviate) :
  addBackground self = false ->
  addNoise self = false ->
  exists w' : World UniformDeviate,
    call self image photParams w = Ok (next_loc UniformDeviate w, w') /\
    images UniformDeviate w' (next_loc UniformDeviate w) =
      images UniformDeviate w image /\
    randomNumbers UniformDeviate w' = randomNumbers UniformDeviate w.
Proof.
  intros Hbg Hnoise. rewrite call_outcome, Hbg, Hnoise. unfold image_copy.
  eexists. split; [reflexivity|]. cbn. now rewrite Nat.eqb_refl.
Qed.

End AddNoiseFrame.

Lemma addNoiseAndBackground_frame_witness :
  exists w' : World unit,
    addNoiseAndBackground (fun _ => 1) (fun _ _ _ _ => 21) unit
      (fun rng n => (repeat 0 n, rng)) (fun _ _ rng image => (image, rng))
      sample_noise (mkESOSkyModel sample_metadata false false) 0
      sample_photParams sample_world = Ok (1%nat, w') /\
    next_loc unit w' = 2%nat /\
    images unit w' 0 = images unit sample_world 0.
Proof.
  eexists. split; [reflexivity|].
  destruct (addNoiseAndBackground_frame (fun _ => 1) (fun _ _ _ _ => 21) unit
              (fun rng n => (repeat 0 n, rng)) (fun _ _ rng image => (image, rng))
              sample_noise (mkESOSkyModel sample_metadata false false) 0%nat
              sample_photParams sample_world _ 1%nat eq_refl)
    as (_ & Hnext & Hframe).
  split; [exact Hnext|]. apply Hframe. lia.
Defined.


Lemma addNoiseAndBackground_plain_copy_witness :
  exists w' : World unit,
    addNoiseAndBackground (fun _ => 1) (fun _ _ _ _ => 21) unit
      (fun rng n => (repeat 0 n, rng)) (fun _ _ rng image => (image, rng))
      sample_noise (mkESOSkyModel sample_metadata false false) 0
      sample_photParams sample_world = Ok (1%nat, w') /\
    images unit w' 1 = sample_image /\
    randomNumbers unit w' = tt.
Proof.
  apply (addNoiseAndBackground_plain_copy (fun _ => 1) (fun _ _ _ _ => 21) unit
           (fun rng n => (repeat 0 n, rng)) (fun _ _ rng image => (image, rng))
           sample_noise (mkESOSkyModel sample_metadata false false) 0%nat
           sample_photParams sample_world); reflexivity.
Defined.
